(** * The lexer of the Jack VM compiler (src/lex.c), embedded in Rocq

    The development follows lex.c function by function:
    - the conversion tables [command], [memory], [arithmetic], [cmd_fmt];
    - the C library calls the lexer relies on ([isspace], [strtok],
      [strtoll], [fgetc], [ungetc], [feof]) as functions on strings and on
      an explicit stream state;
    - [cmdtype], [nextline], [scan_stream] and [free_token_list].

    Conventions.  C [int]/[long] values are [Z]; [long] and [long long] are
    64 bits wide (LP64) and the conversion to [int] wraps modulo 2^32.
    Loops whose termination is not structural take a fuel argument and
    return [None] when it runs out.  A C string is a [string]; the text a
    [char*] denotes stops at the first NUL byte ([c_str]).  [malloc] serves
    every request up to [PTRDIFF_MAX] bytes and refuses a larger one with
    [ENOMEM]; a block that [strcpy] fills keeps what fits and the rest is
    recorded as written past its end ([Block]); the addresses of the
    blocks are only modelled for teardown ([Module Teardown]). *)

From Stdlib Require Import ZArith Bool List Ascii String Lia.
Import ListNotations.
Open Scope string_scope.
Open Scope Z_scope.
Open Scope list_scope.

(** ** Enumerations of lex.h, as used by lex.c *)

Inductive CommandType :=
  NONE | ARITHMETIC | PUSH | POP | LABEL | GOTO | IF | FUNCTION | RETURN | CALL.

Inductive Memory :=
  ARGUMENT | LOCAL | STATIC | CONSTANT | THIS | THAT | POINTER | TEMP.

Inductive RType := ADD | SUB | NEG | EQ | GT | LT | AND | OR | NOT.

Inductive CmdArgType := ARG_NONE | ARG_CMD | ARG_MEMORY | ARG_NUM | ARG_NAME.

Definition CommandType_eqb (a b : CommandType) : bool :=
  match a, b with
  | NONE, NONE | ARITHMETIC, ARITHMETIC | PUSH, PUSH | POP, POP
  | LABEL, LABEL | GOTO, GOTO | IF, IF | FUNCTION, FUNCTION
  | RETURN, RETURN | CALL, CALL => true
  | _, _ => false
  end.

Definition Memory_eqb (a b : Memory) : bool :=
  match a, b with
  | ARGUMENT, ARGUMENT | LOCAL, LOCAL | STATIC, STATIC | CONSTANT, CONSTANT
  | THIS, THIS | THAT, THAT | POINTER, POINTER | TEMP, TEMP => true
  | _, _ => false
  end.

Definition CmdArgType_eqb (a b : CmdArgType) : bool :=
  match a, b with
  | ARG_NONE, ARG_NONE | ARG_CMD, ARG_CMD | ARG_MEMORY, ARG_MEMORY
  | ARG_NUM, ARG_NUM | ARG_NAME, ARG_NAME => true
  | _, _ => false
  end.

(** A heap block that was filled by [strcpy]: the number of bytes that
    were allocated, the bytes that lie inside the block, and the bytes
    that were written past its end (none when the string fits with its
    terminating NUL). *)
Record Block := mkBlock {
  size : nat;
  bytes : string;
  spill : string
}.

(** The union [CmdArg]: one argument slot of an instruction.  The member
    [name] points to the block that holds the name. *)
Inductive CmdArg :=
| A_op (op : RType)
| A_mem (mem : Memory)
| A_num (num : Z)
| A_name (name : Block).

(** A slot of a freshly allocated [argv] holds no value until it is
    written: [None] is such a slot. *)
Definition Cell := option CmdArg.

(** The node of the instruction list ([TokenList]); the [next] link is the
    tail of the Rocq list that holds the nodes. *)
Record TokenList := mkTokenList {
  cmd : CommandType;
  argc : Z;
  t_argv : list Cell
}.

(** What lex.c leaves to lex.h and to the C implementation.  [cmd_val]
    gives the integer values of the [CommandType] enumerators, which the
    test [cmdt & (POP | PUSH)] works on.  [mem_view] is what the [mem]
    member of a slot reads as when the slot was never written or was last
    written through another member ([None]: the value of no enumerator). *)
Record Impl := mkImpl {
  cmd_val : CommandType -> Z;
  mem_view : Cell -> option Memory
}.

(** [new_token_list()]: a node with no command and no argument ([argv]
    and [next] are null pointers). *)
Definition new_token_list : TokenList := mkTokenList NONE 0 [].

(** ** Conversion tables *)

Definition command : list (string * CommandType) :=
  [ ("push", PUSH); ("pop", POP); ("label", LABEL); ("goto", GOTO);
    ("if-goto", IF); ("function", FUNCTION); ("return", RETURN);
    ("call", CALL); ("add", ARITHMETIC); ("sub", ARITHMETIC);
    ("neg", ARITHMETIC); ("eq", ARITHMETIC); ("gt", ARITHMETIC);
    ("lt", ARITHMETIC); ("and", ARITHMETIC); ("or", ARITHMETIC);
    ("not", ARITHMETIC) ].

Definition memory : list (string * Memory) :=
  [ ("argument", ARGUMENT); ("local", LOCAL); ("static", STATIC);
    ("constant", CONSTANT); ("this", THIS); ("that", THAT);
    ("pointer", POINTER); ("temp", TEMP) ].

Definition arithmetic : list (string * RType) :=
  [ ("add", ADD); ("sub", SUB); ("neg", NEG); ("eq", EQ); ("gt", GT);
    ("lt", LT); ("and", AND); ("or", OR); ("not", NOT) ].

Record CommandFormat := mkFmt {
  nargs : Z;
  arg : list CmdArgType
}.

(** Modelled from the spec: lex.h, which declares [CmdArgType], is not
    part of the sources.  The spec's data model has slot 0 of every
    argument shape equal to the placeholder kind, Arithmetic apart, and
    lists the placeholder first among the argument kinds; the slots that
    the initialisers of [cmd_fmt] leave out are zero, so the enumerator of
    value 0 is [ARG_NONE]. *)
Definition zero_CmdArgType : CmdArgType := ARG_NONE.

(** An initialiser [{ n, { a, b, ... } }] of [struct CommandFormat]: the
    three slots of [arg], the missing ones zero. *)
Definition fmt_init (n : Z) (l : list CmdArgType) : CommandFormat :=
  mkFmt n (firstn 3 (l ++ repeat zero_CmdArgType 3)).

Definition cmd_fmt (c : CommandType) : CommandFormat :=
  match c with
  | NONE => fmt_init 0 []
  | ARITHMETIC => fmt_init 1 [ARG_CMD]
  | PUSH => fmt_init 3 [ARG_NONE; ARG_MEMORY; ARG_NUM]
  | POP => fmt_init 3 [ARG_NONE; ARG_MEMORY; ARG_NUM]
  | LABEL => fmt_init 2 [ARG_NONE; ARG_NAME]
  | GOTO => fmt_init 2 [ARG_NONE; ARG_NAME]
  | IF => fmt_init 2 [ARG_NONE; ARG_NAME]
  | FUNCTION => fmt_init 3 [ARG_NONE; ARG_NAME; ARG_NUM]
  | CALL => fmt_init 3 [ARG_NONE; ARG_NAME; ARG_NUM]
  | RETURN => fmt_init 0 []
  end.

(** [fmt.arg[i]] *)
Definition fmt_arg (fmt : CommandFormat) (i : Z) : CmdArgType :=
  nth (Z.to_nat i) (arg fmt) zero_CmdArgType.

(** ** The C library, as far as lex.c uses it *)

Definition char_code (c : ascii) : Z := Z.of_nat (nat_of_ascii c).

(** [isspace] in the C locale: space, and the controls 9 to 13. *)
Definition isspace (c : ascii) : bool :=
  (char_code c =? 32) || ((9 <=? char_code c) && (char_code c <=? 13)).

Definition isdigit (c : ascii) : bool :=
  (48 <=? char_code c) && (char_code c <=? 57).

(** The text of a buffer read as a C string: up to the first NUL. *)
Fixpoint c_str (buf : string) : string :=
  match buf with
  | EmptyString => EmptyString
  | String c t => if (c =? zero)%char then EmptyString else String c (c_str t)
  end.

(** [tokdelim = " \t"] *)
Definition tokdelim : string := String " " (String "009" EmptyString).

Fixpoint strchr (s : string) (c : ascii) : bool :=
  match s with
  | EmptyString => false
  | String d t => (d =? c)%char || strchr t c
  end.

Fixpoint skip_delims (delim s : string) : string :=
  match s with
  | EmptyString => EmptyString
  | String c t => if strchr delim c then skip_delims delim t else s
  end.

(** The token at the head of [s] and what follows the delimiter that ends
    it (the place [strtok] restarts from). *)
Fixpoint take_token (delim s : string) : string * string :=
  match s with
  | EmptyString => (EmptyString, EmptyString)
  | String c t =>
      if strchr delim c then (EmptyString, t)
      else let (tok, r) := take_token delim t in (String c tok, r)
  end.

(** [strtok]: the argument is the text still to be split (the saved
    position of the C function); the result is the next token, or [None]
    for a null pointer, with the new saved position. *)
Definition strtok (s delim : string) : option string * string :=
  match skip_delims delim s with
  | EmptyString => (None, EmptyString)
  | s' => let (tok, r) := take_token delim s' in (Some tok, r)
  end.

(** What [line] reads as once the first [strtok] has put a NUL after the
    first token: the leading delimiters and that token. *)
Fixpoint line_after_strtok (delim s : string) : string :=
  match s with
  | EmptyString => EmptyString
  | String c t =>
      if strchr delim c then String c (line_after_strtok delim t)
      else fst (take_token delim s)
  end.

Definition LLONG_MAX : Z := 2 ^ 63 - 1.
Definition LLONG_MIN : Z := - 2 ^ 63.
Definition PTRDIFF_MAX : Z := 2 ^ 63 - 1.
Definition ERANGE : Z := 34.
Definition ENOMEM : Z := 12.

(** The first [n] characters of [s] and the rest. *)
Fixpoint split_at (n : nat) (s : string) : string * string :=
  match n, s with
  | S n', String c t => let (a, b) := split_at n' t in (String c a, b)
  | _, _ => (EmptyString, s)
  end.

(** [strcpy(dst, src)] into a fresh block of [n] bytes: the characters of
    [src] and the terminating NUL are written from the start of the
    block, whatever its size. *)
Definition strcpy (n : nat) (src : string) : Block :=
  let (inside, beyond) := split_at n (src ++ String zero EmptyString)%string in
  mkBlock n inside beyond.

Fixpoint skip_spaces (s : string) : nat * string :=
  match s with
  | EmptyString => (O, EmptyString)
  | String c t =>
      if isspace c then let (k, r) := skip_spaces t in (S k, r) else (O, s)
  end.

(** The decimal digits at the head of [s]: their value on top of [acc] and
    their number. *)
Fixpoint read_digits (s : string) (acc : Z) : Z * nat :=
  match s with
  | EmptyString => (acc, O)
  | String c t =>
      if isdigit c
      then let (v, k) := read_digits t (10 * acc + (char_code c - 48)) in
           (v, S k)
      else (acc, O)
  end.

Record strtoll_result := mkStrtoll {
  sr_value : Z;        (* the returned number *)
  sr_end : nat;        (* offset of [end] from the start of the word *)
  sr_erange : bool     (* whether [errno] is set to [ERANGE] *)
}.

(** [strtoll(nword, &end, 10)]: white space, an optional sign, decimal
    digits.  Without a digit nothing is converted, [end] is the start of
    the word and 0 is returned; a value outside [long long] is clamped and
    [errno] becomes [ERANGE]. *)
Definition strtoll (s : string) : strtoll_result :=
  let (ws, s1) := skip_spaces s in
  let '(neg, sg, s2) :=
    match s1 with
    | String c t =>
        if (c =? "-")%char then (true, 1%nat, t)
        else if (c =? "+")%char then (false, 1%nat, t)
        else (false, O, s1)
    | EmptyString => (false, O, s1)
    end in
  let (v, k) := read_digits s2 0 in
  match k with
  | O => mkStrtoll 0 O false
  | _ =>
      let v' := if neg then - v else v in
      let e := (ws + sg + k)%nat in
      if v' >? LLONG_MAX then mkStrtoll LLONG_MAX e true
      else if v' <? LLONG_MIN then mkStrtoll LLONG_MIN e true
      else mkStrtoll v' e false
  end.

(** The conversion [(int) num] of a [long]: modulo 2^32 into the signed
    range. *)
Definition to_int (n : Z) : Z := (n + 2 ^ 31) mod 2 ^ 32 - 2 ^ 31.

(** ** cmdtype *)

(** The loop of [cmdtype] runs over the whole table and keeps the last
    match. *)
Definition cmdtype (w : string) : CommandType :=
  fold_left (fun r e => if (w =? fst e)%string then snd e else r) command NONE.

(** ** scan_stream: one line *)

(** One constructor per message that [scan_stream] prints on [stderr]. *)
Inductive Diag :=
| UnknownCommand (w : string)              (* "Unknown command '%s'" *)
| MissingToken (line : string)             (* "Missing token at line '%s'" *)
| PopOnConstant                            (* "Cannot call POP on constant segment" *)
| InvalidSegment (w : string)              (* "Invalid memory segment '%s'" *)
| FailedToReadNumber (w line : string)     (* "Failed to read number '%s' in line '%s'" *)
| TempOutOfRange (num : Z)                 (* "Temporary segment %ld is not between 0 and 7" *)
| ConstantOutOfRange (num : Z)             (* "Constant segment %ld is not between 0 and 32767" *)
| FailedToCompile.                         (* "Failed to compile" *)

(** The variables of [scan_stream] that live across lines: the list built
    so far ([r], with [prev] its last node), [failure], and, outside the
    function, [errno] and what was written to [stderr]. *)
Record Scan := mkScan {
  toks : list TokenList;
  failure : bool;
  errno : Z;
  stderr : list Diag
}.

Definition report (d : Diag) (s : Scan) : Scan :=
  mkScan (toks s) (failure s) (errno s) (stderr s ++ [d]).

Definition set_failure (b : bool) (s : Scan) : Scan :=
  mkScan (toks s) b (errno s) (stderr s).

Definition set_errno (e : Z) (s : Scan) : Scan :=
  mkScan (toks s) (failure s) e (stderr s).

(** [sizeof(CmdArg)]: the union has a pointer member, 8 bytes. *)
Definition sizeof_CmdArg : Z := 8.

(** [argv = malloc(argc * sizeof(CmdArg))].  The product is computed in
    [size_t], so a negative [argc] wraps.  A request of more than
    [PTRDIFF_MAX] bytes is refused: the result is a null pointer (no
    slot) and [errno] becomes [ENOMEM]; lex.c does not test the result.
    Any other request gives [argc] slots, none written. *)
Definition malloc_argv (n : Z) (s : Scan) : list Cell * Scan :=
  if (n * sizeof_CmdArg) mod 2 ^ 64 >? PTRDIFF_MAX
  then ([], set_errno ENOMEM s)
  else (repeat None (Z.to_nat n), s).

(** [argv[k]], and the store [argv[k].member = v].  The table [cmd_fmt]
    keeps every index inside the array; outside it the read finds no
    written slot and the store is dropped. *)
Definition cell_at (argv : list Cell) (k : Z) : Cell :=
  if k <? 0 then None else nth (Z.to_nat k) argv None.

Fixpoint set_nth (argv : list Cell) (k : nat) (v : CmdArg) : list Cell :=
  match argv, k with
  | [], _ => []
  | _ :: t, O => Some v :: t
  | c :: t, S k' => c :: set_nth t k' v
  end.

Definition store (argv : list Cell) (k : Z) (v : CmdArg) : list Cell :=
  if k <? 0 then argv else set_nth argv (Z.to_nat k) v.

(** First entry of a table whose key is [w] ([strcmp(w, key) == 0], then
    [break]). *)
Fixpoint lookup {A : Type} (tbl : list (string * A)) (w : string) : option A :=
  match tbl with
  | [] => None
  | (k, v) :: t => if (w =? k)%string then Some v else lookup t w
  end.

Section Scan.

Variable impl : Impl.

(** [argv[k].mem] *)
Definition read_mem (argv : list Cell) (k : Z) : option Memory :=
  match cell_at argv k with
  | Some (A_mem m) => Some m
  | c => mem_view impl c
  end.

Definition is_mem (m : Memory) (o : option Memory) : bool :=
  match o with
  | Some m' => Memory_eqb m' m
  | None => false
  end.

(** [cmdt & (POP | PUSH)], as a truth value *)
Definition pop_or_push (cmdt : CommandType) : bool :=
  negb (Z.land (cmd_val impl cmdt)
               (Z.lor (cmd_val impl POP) (cmd_val impl PUSH)) =? 0).

(** [case ARG_MEMORY] *)
Definition scan_memory (cmdt : CommandType) (argn : Z) (nword : string)
    (argv : list Cell) (s : Scan) : list Cell * Scan :=
  let '(argv, found) :=
    match lookup memory nword with
    | Some m => (store argv argn (A_mem m), true)
    | None => (argv, false)
    end in
  let s :=
    if CommandType_eqb cmdt POP && is_mem CONSTANT (read_mem argv argn)
    then set_failure true (report PopOnConstant s)
    else s in
  let s :=
    if negb found
    then set_failure true (report (InvalidSegment nword) s)
    else s in
  (argv, s).

(** [case ARG_NUM] *)
Definition scan_num (cmdt : CommandType) (line : string) (argn : Z)
    (nword : string) (argv : list Cell) (s : Scan) : list Cell * Scan :=
  let p := strtoll nword in
  let num := sr_value p in
  let s := if sr_erange p then set_errno ERANGE s else s in
  let s :=
    if (errno s =? ERANGE) || Nat.eqb (sr_end p) O
    then set_failure true (report (FailedToReadNumber nword line) s)
    else s in
  let '(s, num_is_invalid) :=
    if pop_or_push cmdt then
      if is_mem TEMP (read_mem argv (argn - 1)) then
        if (num <? 0) || (num >? 7)
        then (report (TempOutOfRange num) s, true)
        else (s, false)
      else
        if (num <? 0) || (num >? 32767)
        then (report (ConstantOutOfRange num) s, true)
        else (s, false)
    else (s, false) in
  let s := set_failure (failure s || num_is_invalid) s in
  (store argv argn (A_num (to_int num)), s).

(** The [switch (fmt.arg[i])] of the argument loop. *)
Definition scan_arg (cmdt : CommandType) (line : string) (kind : CmdArgType)
    (argn : Z) (nword : string) (argv : list Cell) (s : Scan)
    : list Cell * Scan :=
  match kind with
  | ARG_MEMORY => scan_memory cmdt argn nword argv s
  | ARG_NUM => scan_num cmdt line argn nword argv s
  | ARG_NAME =>
      (* name = malloc(strlen(nword) * sizeof(char)); strcpy(name, nword) *)
      (store argv argn (A_name (strcpy (String.length nword) nword)), s)
  | _ => (argv, s)
  end.

(** [for (int i = 1; i < fmt.nargs; ++i, ++argn)]: [n] iterations are
    left, [save] is the saved position of [strtok]. *)
Fixpoint for_args (n : nat) (cmdt : CommandType) (fmt : CommandFormat)
    (line : string) (i argn : Z) (save : string) (argv : list Cell)
    (s : Scan) : list Cell * Scan :=
  match n with
  | O => (argv, s)
  | S n' =>
      let (nword, save') := strtok save tokdelim in
      match nword with
      | None =>
          for_args n' cmdt fmt line (i + 1) (argn + 1) save' argv
            (set_failure true (report (MissingToken line) s))
      | Some w =>
          let (argv', s') := scan_arg cmdt line (fmt_arg fmt i) argn w argv s in
          for_args n' cmdt fmt line (i + 1) (argn + 1) save' argv' s'
      end
  end.

(** The first slot: skipped when it is [ARG_NONE], else resolved from the
    command word itself.  The result is [argn], [argc], [argv] and the
    state after the call of [malloc]. *)
Definition first_slot (fmt : CommandFormat) (w : string) (s : Scan)
    : Z * Z * list Cell * Scan :=
  if CmdArgType_eqb (fmt_arg fmt 0) ARG_NONE then
    let (argv, s) := malloc_argv (nargs fmt - 1) s in
    (0, nargs fmt - 1, argv, s)
  else
    let (argv, s) := malloc_argv (nargs fmt) s in
    let argv :=
      match fmt_arg fmt 0 with
      | ARG_CMD =>
          match lookup arithmetic w with
          | Some op => store argv 0 (A_op op)
          | None => argv
          end
      | _ => argv
      end in
    (1, nargs fmt, argv, s).

(** [if (!failure) { ... }]: a node from [new_token_list] gets the
    command, [argc] and [argv] of the line and is linked behind [prev]. *)
Definition append_node (cmdt : CommandType) (n : Z) (argv : list Cell)
    (s : Scan) : Scan :=
  if failure s then s
  else
    let curr := new_token_list in
    let curr := mkTokenList cmdt (argc curr) (t_argv curr) in
    let curr := mkTokenList (cmd curr) n (t_argv curr) in
    let curr := mkTokenList (cmd curr) (argc curr) argv in
    mkScan (toks s ++ [curr]) (failure s) (errno s) (stderr s).

(** The body of the [while] loop for one line.  The result is [None] when
    [strtok] finds no word at all: [cmdtype] then hands a null pointer to
    [strcmp], for which C defines no behaviour. *)
Definition scan_line (s : Scan) (buf : string) : option Scan :=
  let line := c_str buf in
  match strtok line tokdelim with
  | (None, _) => None
  | (Some w, save) =>
      let cmdt := cmdtype w in
      if CommandType_eqb cmdt NONE then Some (report (UnknownCommand w) s)
      else
        let fmt := cmd_fmt cmdt in
        let '(argn, n, argv, s0) := first_slot fmt w s in
        let (argv', s') :=
          for_args (Z.to_nat (nargs fmt - 1)) cmdt fmt
                   (line_after_strtok tokdelim line) 1 argn save argv s0 in
        Some (append_node cmdt n argv' s')
  end.

(** The lines of a stream, one after the other. *)
Fixpoint scan_lines (s : Scan) (lines : list string) : option Scan :=
  match lines with
  | [] => Some s
  | l :: rest =>
      match scan_line s l with
      | None => None
      | Some s' => scan_lines s' rest
      end
  end.

End Scan.

(** A possible lex.h: enumerators that are bit flags, as the test
    [cmdt & (POP | PUSH)] suggests.  (Another one, [ordinal], is defined
    further down.) *)
Definition flag_val (c : CommandType) : Z :=
  match c with
  | NONE => 0 | ARITHMETIC => 1 | PUSH => 2 | POP => 4 | LABEL => 8
  | GOTO => 16 | IF => 32 | FUNCTION => 64 | RETURN => 128 | CALL => 256
  end.

Definition flags : Impl := mkImpl flag_val (fun _ => None).

Definition start (e : Z) : Scan := mkScan [] false e [].

(** ** The input stream *)

(** A [FILE] open for reading: the characters still to be read (a
    character pushed back by [ungetc] is put in front) and the end-of-file
    indicator. *)
Record FILE := mkFILE {
  pending : string;
  eof_ind : bool
}.

(** The [int] that [fgetc] returns: a character, or [EOF]. *)
Definition EOF : option ascii := None.

Definition fgetc (fp : FILE) : option ascii * FILE :=
  if eof_ind fp then (EOF, fp)
  else match pending fp with
       | EmptyString => (EOF, mkFILE EmptyString true)
       | String c t => (Some c, mkFILE t false)
       end.

(** [ungetc(c, fp)]: pushing [EOF] back fails and changes nothing; a
    character pushed back clears the end-of-file indicator. *)
Definition ungetc (c : option ascii) (fp : FILE) : FILE :=
  match c with
  | None => fp
  | Some a => mkFILE (String a (pending fp)) false
  end.

Definition feof (fp : FILE) : bool := eof_ind fp.

Definition fopen (text : string) : FILE := mkFILE text false.

Definition is_char (a : ascii) (c : option ascii) : bool :=
  match c with
  | Some b => (b =? a)%char
  | None => false
  end.

Definition newline : ascii := "010"%char.
Definition slash : ascii := "/"%char.

(** ** nextline *)

(** [while (isspace(c = fgetc(fp)));] gives the character that stopped
    it. *)
Fixpoint skip_leading (fuel : nat) (fp : FILE) : option (option ascii * FILE) :=
  match fuel with
  | O => None
  | S k =>
      let (c, fp') := fgetc fp in
      match c with
      | Some a => if isspace a then skip_leading k fp' else Some (c, fp')
      | None => Some (c, fp')
      end
  end.

(** [while (fgetc(fp) != '\n');] *)
Fixpoint skip_comment (fuel : nat) (fp : FILE) : option FILE :=
  match fuel with
  | O => None
  | S k =>
      let (c, fp') := fgetc fp in
      if is_char newline c then Some fp' else skip_comment k fp'
  end.

(** [r[i++] = c], after the buffer was allocated or grown: [r] is [None]
    while it is a null pointer. *)
Definition push_char (r : option string) (c : ascii) : option string :=
  match r with
  | None => Some (String c EmptyString)
  | Some s => Some (s ++ String c EmptyString)%string
  end.

(** [while ((c = fgetc(fp)) != EOF) { ... }] *)
Fixpoint read_chars (fuel : nat) (fp : FILE) (r : option string)
    : option (option string * FILE) :=
  match fuel with
  | O => None
  | S k =>
      let (c, fp1) := fgetc fp in
      match c with
      | None => Some (r, fp1)
      | Some a =>
          if (a =? newline)%char then Some (r, fp1)
          else if (a =? slash)%char then
            let (n, fp2) := fgetc fp1 in
            if is_char slash n then
              match skip_comment k fp2 with
              | None => None
              | Some fp3 => Some (r, fp3)
              end
            else read_chars k (ungetc n fp2) (push_char r a)
          else read_chars k fp1 (push_char r a)
      end
  end.

(** [nextline]: [None] when the fuel runs out, else the line ([None] for
    the null pointer returned at the end of the stream) and the stream
    after the call. *)
Fixpoint nextline (fuel : nat) (fp : FILE) : option (option string * FILE) :=
  match fuel with
  | O => None
  | S k =>
      if feof fp then Some (None, fp)
      else
        match skip_leading k fp with
        | None => None
        | Some (c, fp1) =>
            match read_chars k (ungetc c fp1) None with
            | None => None
            | Some (Some r, fp2) => Some (Some r, fp2)
            | Some (None, fp2) => nextline k fp2
            end
        end
  end.

(** ** scan_stream *)

(** How a run of [scan_stream] ends, with what it wrote to [stderr]. *)
Inductive Outcome :=
| Return (r : list TokenList) (err : list Diag)   (* [return r] *)
| Exit (status : Z) (err : list Diag)             (* [exit(status)] *)
| Undefined.                                      (* [strcmp] on a null pointer *)

Section Stream.

Variable impl : Impl.

(** [while ((line = nextline(fp))) { ... }]: the state of the scan when
    the loop is left, [Some None] when a line has no word. *)
Fixpoint scan_while (fuel : nat) (fp : FILE) (s : Scan)
    : option (option Scan) :=
  match fuel with
  | O => None
  | S k =>
      match nextline k fp with
      | None => None
      | Some (None, _) => Some (Some s)
      | Some (Some line, fp') =>
          match scan_line impl s line with
          | None => Some None
          | Some s' => scan_while k fp' s'
          end
      end
  end.

(** The end of [scan_stream]: [exit(1)] when [failure] is set, else the
    head of the list is returned. *)
Definition finish (o : option Scan) : Outcome :=
  match o with
  | None => Undefined
  | Some s =>
      if failure s then Exit 1 (stderr s ++ [FailedToCompile])
      else Return (toks s) (stderr s)
  end.

(** [scan_stream(fp)], called with [errno] equal to [e]. *)
Definition scan_stream (fuel : nat) (e : Z) (fp : FILE) : option Outcome :=
  match scan_while fuel fp (start e) with
  | None => None
  | Some o => Some (finish o)
  end.

End Stream.

(** The lines that successive calls of [nextline] deliver, up to the end
    of the stream. *)
Fixpoint read_lines (fuel : nat) (fp : FILE) : option (list string) :=
  match fuel with
  | O => None
  | S k =>
      match nextline k fp with
      | None => None
      | Some (None, _) => Some []
      | Some (Some line, fp') =>
          match read_lines k fp' with
          | None => None
          | Some ls => Some (line :: ls)
          end
      end
  end.

(** The words of a line, as the successive calls of [strtok] deliver
    them. *)
Fixpoint tokens_upto (n : nat) (s : string) : list string :=
  match n with
  | O => []
  | S k =>
      match strtok s tokdelim with
      | (None, _) => []
      | (Some w, r) => w :: tokens_upto k r
      end
  end.

Definition tokens (s : string) : list string :=
  tokens_upto (S (String.length s)) s.

(** The messages that set [failure]: every one but the unknown-command
    message and the final "Failed to compile". *)
Definition is_failure_diag (d : Diag) : bool :=
  match d with
  | UnknownCommand _ | FailedToCompile => false
  | _ => true
  end.

Definition is_range_diag (d : Diag) : bool :=
  match d with
  | TempOutOfRange _ | ConstantOutOfRange _ => true
  | _ => false
  end.

Definition is_parse_diag (d : Diag) : bool :=
  match d with
  | FailedToReadNumber _ _ => true
  | _ => false
  end.

(** The instruction that a line yields when it is scanned on its own, with
    [errno] equal to [e] and no failure recorded before it. *)
Definition line_instr (impl : Impl) (e : Z) (l : string) : option TokenList :=
  match scan_line impl (start e) l with
  | Some d => if failure d then None else hd_error (toks d)
  | None => None
  end.

(** The command word of a line that [cmdtype] does not know. *)
Definition unknown_word (l : string) : option string :=
  match strtok (c_str l) tokdelim with
  | (Some w, _) => if CommandType_eqb (cmdtype w) NONE then Some w else None
  | (None, _) => None
  end.

Definition nl : string := String newline EmptyString.

(** ** Teardown of the list: the heap blocks *)

Module Teardown.

(** The address of a heap block; 0 is the null pointer. *)
Definition ptr := nat.

(** A node of the list as it lies on the heap: the block of the struct
    itself (from [new_token_list]), the block [argv] points to (null when
    the allocation of [scan_stream] gave none), and the blocks that the
    [name] members of its slots point to (one [malloc] per [ARG_NAME]
    slot). *)
Record Node := mkNode {
  self : ptr;
  argv_blk : ptr;
  name_blks : list ptr
}.

(** The live blocks. *)
Definition heap := list ptr.

(** [free(p)]: nothing for a null pointer, the block leaves the heap when
    it is live, and no behaviour is defined otherwise ([None]). *)
Definition free (p : ptr) (h : heap) : option heap :=
  if Nat.eqb p 0 then Some h
  else if existsb (Nat.eqb p) h then Some (remove Nat.eq_dec p h)
  else None.

(** [free_token_list(tl)], the list being the chain of [next] links that
    starts at [tl]. *)
Fixpoint free_token_list (tl : list Node) (h : heap) : option heap :=
  match tl with
  | [] => Some h
  | n :: rest =>
      match free (argv_blk n) h with
      | None => None
      | Some h1 =>
          match free (self n) h1 with
          | None => None
          | Some h2 =>
              match rest with
              | [] => Some h2
              | _ :: _ => free_token_list rest h2
              end
          end
      end
  end.

(** The blocks that [scan_stream] allocates for the nodes it links, when
    [malloc] hands out the addresses from [a] upwards: for each line the
    array [argv] (a null pointer for the size that [argc = -1] wraps to),
    a block per name, then the node. *)
Definition count_names (t : TokenList) : nat :=
  List.length (filter (fun c => match c with Some (A_name _) => true | _ => false end)
                      (t_argv t)).

Fixpoint place (a : ptr) (ts : list TokenList) : list Node :=
  match ts with
  | [] => []
  | t :: rest =>
      let k := count_names t in
      mkNode (a + 1 + k)%nat (if argc t <? 0 then O else a) (seq (a + 1) k)
        :: place (a + 2 + k)%nat rest
  end.

(** Every block a list owns, in the order of allocation. *)
Definition node_blocks (n : Node) : list ptr :=
  (if Nat.eqb (argv_blk n) 0 then [] else [argv_blk n])
  ++ name_blks n ++ [self n].

Definition blocks (tl : list Node) : list ptr := flat_map node_blocks tl.

Definition owned_names (tl : list Node) : list ptr :=
  flat_map name_blks tl.

End Teardown.

(** The state reached from [s] by a piece of the scan that, run on its
    own, ends in [d]: messages are appended, [failure] is or-ed, [errno]
    is that of [d]; the list is that of [s]. *)
Definition after (s d : Scan) : Scan :=
  mkScan (toks s) (failure s || failure d) (errno d) (stderr s ++ stderr d).

(** The state in which nothing is recorded but [errno]. *)
Definition clean (s : Scan) : Scan := mkScan [] false (errno s) [].

(** The state after a whole line that, scanned on its own, ends in [d]:
    as [after], and the instruction of the line is linked unless a failure
    was recorded before. *)
Definition join (s d : Scan) : Scan :=
  mkScan (if failure s then toks s else toks s ++ toks d)
         (failure s || failure d) (errno d) (stderr s ++ stderr d).

(** The argument loop and the body of the [while] loop, read off the words
    of the line rather than off the saved position of [strtok]; they are
    shown equal to [for_args] and [scan_line] below
    ([for_args_words], [scan_line_words]). *)
Fixpoint for_words (impl : Impl) (n : nat) (cmdt : CommandType)
    (fmt : CommandFormat) (line : string) (i argn : Z) (ws : list string)
    (argv : list Cell) (s : Scan) : list Cell * Scan :=
  match n with
  | O => (argv, s)
  | S n' =>
      match ws with
      | [] =>
          for_words impl n' cmdt fmt line (i + 1) (argn + 1) [] argv
            (set_failure true (report (MissingToken line) s))
      | w :: ws' =>
          let (argv', s') :=
            scan_arg impl cmdt line (fmt_arg fmt i) argn w argv s in
          for_words impl n' cmdt fmt line (i + 1) (argn + 1) ws' argv' s'
      end
  end.

(** What [first_slot] gives whatever the state is, and the state it
    leaves ([first_slot_split]). *)
Definition first_cells (fmt : CommandFormat) (w : string)
    : Z * Z * list Cell :=
  fst (first_slot fmt w (mkScan [] false 0 [])).

Definition allocated (fmt : CommandFormat) (s : Scan) : Scan :=
  snd (first_slot fmt EmptyString s).

Definition scan_words (impl : Impl) (s : Scan) (line : string)
    (ws : list string) : option Scan :=
  match ws with
  | [] => None
  | w :: rest =>
      let cmdt := cmdtype w in
      if CommandType_eqb cmdt NONE then Some (report (UnknownCommand w) s)
      else
        let fmt := cmd_fmt cmdt in
        let '(argn, n, argv) := first_cells fmt w in
        let (argv', s') :=
          for_words impl (Z.to_nat (nargs fmt - 1)) cmdt fmt line 1 argn
                    rest argv (allocated fmt s) in
        Some (append_node cmdt n argv' s')
  end.

(** The messages a piece of the scan added: what [stderr] holds beyond
    the [k] messages that were there before. *)
Definition added (k : nat) (s : Scan) : list Diag := skipn k (stderr s).

Definition new_diags (s s' : Scan) : list Diag :=
  added (List.length (stderr s)) s'.

(** The bounds of the numeric operand of [push] and [pop], in the words of
    the specification: 0 to 7 for the segment [TEMP], 0 to 32767 for every
    other segment. *)
Definition in_range (m : Memory) (num : Z) : bool :=
  (0 <=? num) && (num <=? (if Memory_eqb m TEMP then 7 else 32767)).

(** The message for an operand out of these bounds. *)
Definition range_diag (m : Memory) (num : Z) : Diag :=
  if Memory_eqb m TEMP then TempOutOfRange num else ConstantOutOfRange num.

(** Whether [case ARG_NUM] prints its number-parse message for the word
    [w] when [errno] is [e] before the call of [strtoll]. *)
Definition parse_fails (e : Z) (w : string) : bool :=
  ((if sr_erange (strtoll w) then ERANGE else e) =? ERANGE)
  || Nat.eqb (sr_end (strtoll w)) O.

(** A word made of decimal digits, and the number it denotes. *)
Fixpoint all_digits (ds : string) : bool :=
  match ds with
  | EmptyString => true
  | String c t => isdigit c && all_digits t
  end.

Definition dec_value (ds : string) : Z :=
  fold_left (fun a c => 10 * a + (char_code c - 48))
            (list_ascii_of_string ds) 0.

(** The text after the digits: it does not go on with a digit. *)
Definition no_digit_ahead (g : string) : bool :=
  match g with
  | EmptyString => true
  | String c _ => negb (isdigit c)
  end.


(** A lex.h whose enumerators are numbered from 0 in the order of the
    table [cmd_fmt]. *)
Definition ordinal_val (c : CommandType) : Z :=
  match c with
  | NONE => 0 | ARITHMETIC => 1 | PUSH => 2 | POP => 3 | LABEL => 4
  | GOTO => 5 | IF => 6 | FUNCTION => 7 | CALL => 8 | RETURN => 9
  end.

Definition ordinal : Impl := mkImpl ordinal_val (fun _ => None).

(** [failure] is set exactly when one of the messages that set it was
    printed. *)
Definition consistent (s : Scan) : Prop :=
  failure s = existsb is_failure_diag (stderr s).



(** ** The logical lines of a text, in the words of the specification *)

Definition starts_with (c : ascii) (s : string) : bool :=
  match s with
  | String a _ => (a =? c)%char
  | EmptyString => false
  end.

(** What follows the first newline of [s], if there is one. *)
Fixpoint after_newline (s : string) : option string :=
  match s with
  | EmptyString => None
  | String a t => if (a =? newline)%char then Some t else after_newline t
  end.

(** Every [//] of the text has a newline somewhere after it. *)
Fixpoint comments_closed (s : string) : bool :=
  match s with
  | EmptyString => true
  | String a t =>
      (if (a =? slash)%char && starts_with slash t
       then match after_newline t with Some _ => true | None => false end
       else true)
      && comments_closed t
  end.

(** The text left once leading white space, blank lines and lines that
    hold only a comment are dropped; [in_comment] tells whether the text
    starts inside a comment. *)
Fixpoint skip_blank (in_comment : bool) (s : string) : string :=
  match s with
  | EmptyString => EmptyString
  | String a t =>
      if in_comment then
        if (a =? newline)%char then skip_blank false t else skip_blank true t
      else if isspace a then skip_blank false t
      else if (a =? slash)%char && starts_with slash t then
        match t with
        | String _ t' => skip_blank true t'
        | EmptyString => EmptyString
        end
      else s
  end.

(** The characters of a physical line up to its newline, to the [//] that
    starts a comment, or to the end of the text. *)
Fixpoint line_text (s : string) : string :=
  match s with
  | EmptyString => EmptyString
  | String a t =>
      if (a =? newline)%char then EmptyString
      else if (a =? slash)%char && starts_with slash t then EmptyString
      else String a (line_text t)
  end.

(** The stream once that line, with its newline or its comment, has been
    read. *)
Fixpoint after_line (s : string) : FILE :=
  match s with
  | EmptyString => mkFILE EmptyString true
  | String a t =>
      if (a =? newline)%char then mkFILE t false
      else if (a =? slash)%char && starts_with slash t then
        match t with
        | String _ t' =>
            match after_newline t' with
            | Some v => mkFILE v false
            | None => mkFILE EmptyString true
            end
        | EmptyString => mkFILE EmptyString true
        end
      else after_line t
  end.

(** The next logical line of a text: the first line that is not blank
    and not a mere comment, without its leading white space and without
    its comment; or the end of the stream. *)
Definition next_logical_line (text : string) : option string * FILE :=
  match skip_blank false text with
  | EmptyString => (None, mkFILE EmptyString true)
  | u => (Some (line_text u), after_line u)
  end.

(** The buffer [r] after the characters of [p] were stored in it. *)
Definition stored (r : option string) (p : string) : option string :=
  match p with
  | EmptyString => r
  | _ => Some (match r with None => p | Some l => (l ++ p)%string end)
  end.

Fixpoint all_space (s : string) : bool :=
  match s with
  | EmptyString => true
  | String a t => isspace a && all_space t
  end.

Fixpoint has_char (c : ascii) (s : string) : bool :=
  match s with
  | EmptyString => false
  | String a t => (a =? c)%char || has_char c t
  end.

(** Whether [//] occurs in [s]. *)
Fixpoint has_comment (s : string) : bool :=
  match s with
  | EmptyString => false
  | String a t => ((a =? slash)%char && starts_with slash t) || has_comment t
  end.

Fixpoint drop_spaces (s : string) : string :=
  match s with
  | EmptyString => EmptyString
  | String a t => if isspace a then drop_spaces t else s
  end.

(** The stream after the white space in front of [s] was read and the
    character that ended it was pushed back. *)
Definition trimmed (s : string) : FILE :=
  match drop_spaces s with
  | EmptyString => mkFILE EmptyString true
  | u => mkFILE u false
  end.

(** The logical lines of a text, one after the other. *)
Fixpoint lines_upto (n : nat) (text : string) : list string :=
  match n with
  | O => []
  | S n' =>
      match next_logical_line text with
      | (None, _) => []
      | (Some l, fp) => l :: lines_upto n' (pending fp)
      end
  end.

Definition logical_lines (text : string) : list string :=
  lines_upto (S (String.length text)) text.

(** The argument shapes, in the words of the specification: the kinds of
    the stored arguments of each command. *)
Definition shape (c : CommandType) : list CmdArgType :=
  match c with
  | PUSH | POP => [ARG_MEMORY; ARG_NUM]
  | LABEL | GOTO | IF => [ARG_NAME]
  | FUNCTION | CALL => [ARG_NAME; ARG_NUM]
  | ARITHMETIC => [ARG_CMD]
  | RETURN | NONE => []
  end.

Definition cell_kind (c : Cell) : option CmdArgType :=
  match c with
  | Some (A_op _) => Some ARG_CMD
  | Some (A_mem _) => Some ARG_MEMORY
  | Some (A_num _) => Some ARG_NUM
  | Some (A_name _) => Some ARG_NAME
  | None => None
  end.

Definition has_shape (t : TokenList) : Prop :=
  argc t = Z.of_nat (List.length (shape (cmd t)))
  /\ map cell_kind (t_argv t) = map Some (shape (cmd t)).

(** The data-model invariant of a [push] or [pop] instruction: a segment
    and a number in the bounds of that segment, and no [pop] to
    [CONSTANT]. *)
Definition push_pop_ok (t : TokenList) : Prop :=
  cmd t = PUSH \/ cmd t = POP ->
  exists m n,
    t_argv t = [Some (A_mem m); Some (A_num n)]
    /\ in_range m n = true
    /\ (cmd t = POP -> m <> CONSTANT).

(** A stream whose end-of-file indicator is set has nothing left to
    read. *)
Definition at_end_when_eof (fp : FILE) : Prop :=
  eof_ind fp = true -> pending fp = EmptyString.

(** What is left of the stream [fp] in [fp']: an unclosed comment is
    still unclosed, and the end-of-file indicator still means the end. *)
Definition carries_on (fp fp' : FILE) : Prop :=
  (comments_closed (pending fp) = false ->
   comments_closed (pending fp') = false)
  /\ (at_end_when_eof fp -> at_end_when_eof fp').

(** A line that starts with a character which is neither white space nor
    NUL: [strtok] finds a command word in it. *)
Definition starts_with_word (l : string) : Prop :=
  exists a r, l = String a r /\ isspace a = false /\ a <> zero.

Definition is_missing_diag (d : Diag) : bool :=
  match d with
  | MissingToken _ => true
  | _ => false
  end.






(** Two states of the scan that differ at most in [errno], and there only
    between values other than [ERANGE], the one value lex.c tests. *)
Definition alike (s1 s2 : Scan) : Prop :=
  toks s1 = toks s2 /\ failure s1 = failure s2 /\ stderr s1 = stderr s2
  /\ (errno s1 =? ERANGE) = (errno s2 =? ERANGE).

(** Every character of [s] occurs in [t]. *)
Definition chars_in (s t : string) : Prop :=
  forall c, has_char c s = true -> has_char c t = true.

(** A slot whose name was copied into a block one byte too small: the
    block is full of the characters of the name, none of them NUL, and
    the terminating NUL was written past its end. *)
Definition overflowed (c : Cell) : Prop :=
  match c with
  | Some (A_name b) =>
      size b = String.length (bytes b)
      /\ has_char zero (bytes b) = false
      /\ spill b = String zero EmptyString
  | _ => True
  end.

(** * Properties *)

(** ** strtok and the words of a line *)

Lemma skip_delims_length (d s : string) :
  (String.length (skip_delims d s) <= String.length s)%nat.
Proof.
  induction s as [|c t IH]; simpl; [lia|].
  destruct (strchr d c); simpl; lia.
Qed.

Lemma take_token_length (d s : string) :
  (String.length (snd (take_token d s)) <= Nat.pred (String.length s))%nat.
Proof.
  induction s as [|c t IH]; simpl; [lia|].
  destruct (strchr d c); simpl; [lia|].
  destruct (take_token d t) as [tok r]; simpl in *; lia.
Qed.

Lemma strtok_shorter (s d w r : string) :
  strtok s d = (Some w, r) -> (String.length r < String.length s)%nat.
Proof.
  unfold strtok. intros H.
  pose proof (skip_delims_length d s) as Hs.
  destruct (skip_delims d s) as [|c t] eqn:E; [discriminate|].
  pose proof (take_token_length d (String c t)) as Ht.
  destruct (take_token d (String c t)) as [tok r'].
  inversion H; subst. simpl in *. lia.
Qed.

Lemma strtok_none_save (s d r : string) :
  strtok s d = (None, r) -> r = EmptyString.
Proof.
  unfold strtok. destruct (skip_delims d s).
  - now inversion 1.
  - destruct (take_token d _); discriminate.
Qed.

Lemma tokens_upto_stable (n m : nat) :
  forall s, (String.length s < n)%nat -> (String.length s < m)%nat ->
            tokens_upto n s = tokens_upto m s.
Proof.
  revert m. induction n as [|n IH]; intros m s Hn Hm; [lia|].
  destruct m as [|m]; [lia|]. simpl.
  destruct (strtok s tokdelim) as [[w|] r] eqn:E; [|reflexivity].
  apply strtok_shorter in E. f_equal. apply IH; lia.
Qed.

Lemma tokens_unfold (s : string) :
  tokens s = match strtok s tokdelim with
             | (None, _) => []
             | (Some w, r) => w :: tokens r
             end.
Proof.
  unfold tokens at 1. simpl.
  destruct (strtok s tokdelim) as [[w|] r] eqn:E; [|reflexivity].
  apply strtok_shorter in E. f_equal. unfold tokens.
  apply tokens_upto_stable; lia.
Qed.

Lemma tokens_cons_inv (s w : string) (ws : list string) :
  tokens s = w :: ws ->
  exists r, strtok s tokdelim = (Some w, r) /\ tokens r = ws.
Proof.
  rewrite tokens_unfold.
  destruct (strtok s tokdelim) as [[w'|] r]; [|discriminate].
  intros H; inversion H; subst. now exists r.
Qed.

Lemma tokens_nil_inv (s : string) :
  tokens s = [] -> strtok s tokdelim = (None, EmptyString).
Proof.
  rewrite tokens_unfold.
  destruct (strtok s tokdelim) as [[w'|] r] eqn:E; [discriminate|].
  intros _. apply strtok_none_save in E. now subst.
Qed.

Lemma tokens_empty : tokens EmptyString = [].
Proof. reflexivity. Qed.

(** ** The line reader *)

Lemma newline_eqb_space (a : ascii) :
  (a =? newline)%char = true -> isspace a = true.
Proof. intros H. apply Ascii.eqb_eq in H. now subst. Qed.

Lemma not_space_not_newline (a : ascii) :
  isspace a = false -> (a =? newline)%char = false.
Proof.
  intros H. destruct (a =? newline)%char eqn:E; [|reflexivity].
  apply newline_eqb_space in E. congruence.
Qed.

Lemma after_newline_length (t v : string) :
  after_newline t = Some v -> (String.length v < String.length t)%nat.
Proof.
  revert v. induction t as [|a t IH]; intros v H; simpl in *; [discriminate|].
  destruct (a =? newline)%char.
  - inversion H; subst. lia.
  - apply IH in H. lia.
Qed.

Lemma comments_closed_tail (a : ascii) (t : string) :
  comments_closed (String a t) = true -> comments_closed t = true.
Proof. simpl. intros H. now apply andb_true_iff in H as [_ H]. Qed.

Lemma comments_closed_after (t v : string) :
  after_newline t = Some v -> comments_closed t = true ->
  comments_closed v = true.
Proof.
  revert v. induction t as [|a t IH]; intros v H Hc; [discriminate|].
  cbn [after_newline] in H. apply comments_closed_tail in Hc.
  destruct (a =? newline)%char.
  - now inversion H; subst.
  - now apply IH.
Qed.

Lemma drop_spaces_length (s : string) :
  (String.length (drop_spaces s) <= String.length s)%nat.
Proof.
  induction s as [|a t IH]; simpl; [lia|].
  destruct (isspace a); simpl; lia.
Qed.

Lemma drop_spaces_head (s : string) (a : ascii) (t : string) :
  drop_spaces s = String a t -> isspace a = false.
Proof.
  induction s as [|b u IH]; simpl; [discriminate|].
  destruct (isspace b) eqn:E; [exact IH|].
  intros H; inversion H; subst. exact E.
Qed.

Lemma comments_closed_drop (s : string) :
  comments_closed s = true -> comments_closed (drop_spaces s) = true.
Proof.
  induction s as [|a t IH]; intros H; [reflexivity|].
  cbn [drop_spaces]. destruct (isspace a); [|exact H].
  apply IH. now apply comments_closed_tail in H.
Qed.

Lemma skip_blank_drop (s : string) :
  skip_blank false s = skip_blank false (drop_spaces s).
Proof.
  induction s as [|a t IH]; [reflexivity|].
  cbn [drop_spaces]. destruct (isspace a) eqn:E; [|reflexivity].
  cbn [skip_blank]. now rewrite E.
Qed.

Lemma skip_blank_comment (t v : string) :
  after_newline t = Some v -> skip_blank true t = skip_blank false v.
Proof.
  revert v. induction t as [|a t IH]; intros v H; [discriminate|].
  cbn [after_newline skip_blank] in *.
  destruct (a =? newline)%char.
  - now inversion H; subst.
  - now apply IH.
Qed.

(** The three loops of [nextline], given fuel beyond the length of what is
    left to read. *)
Lemma skip_comment_spec (t v : string) :
  after_newline t = Some v ->
  forall k, (String.length t < k)%nat ->
            skip_comment k (mkFILE t false) = Some (mkFILE v false).
Proof.
  revert v. induction t as [|a t IH]; intros v H k Hk; [discriminate|].
  destruct k as [|k]; [lia|]. cbn [after_newline] in H.
  cbn [skip_comment fgetc eof_ind pending is_char].
  destruct (a =? newline)%char.
  - now inversion H; subst.
  - apply IH; [exact H|]. simpl in Hk. lia.
Qed.

Lemma skip_comment_diverges (k : nat) :
  forall fp, after_newline (pending fp) = None -> skip_comment k fp = None.
Proof.
  induction k as [|k IH]; intros [s e] H; [reflexivity|].
  cbn [skip_comment]. unfold fgetc. cbn [eof_ind pending] in *.
  destruct e.
  - cbn [is_char]. now apply IH.
  - destruct s as [|a t].
    + cbn [is_char]. now apply IH.
    + cbn [after_newline] in H. cbn [is_char].
      destruct (a =? newline)%char; [discriminate|]. now apply IH.
Qed.

Lemma skip_leading_spec (s : string) :
  forall k, (String.length s < k)%nat ->
    exists c fp1, skip_leading k (mkFILE s false) = Some (c, fp1)
                  /\ ungetc c fp1 = trimmed s.
Proof.
  induction s as [|a t IH]; intros k Hk; (destruct k as [|k]; [simpl in Hk; lia|]).
  - exists None, (mkFILE EmptyString true). split; reflexivity.
  - cbn [skip_leading fgetc eof_ind pending]. unfold trimmed.
    cbn [drop_spaces]. destruct (isspace a) eqn:E.
    + apply IH. simpl in Hk. lia.
    + exists (Some a), (mkFILE t false). split; reflexivity.
Qed.

Lemma append_assoc (a b c : string) :
  ((a ++ b) ++ c = a ++ (b ++ c))%string.
Proof. induction a as [|x a IH]; simpl; [reflexivity|now rewrite IH]. Qed.

Lemma stored_push (r : option string) (a : ascii) (p : string) :
  stored (push_char r a) p = stored r (String a p).
Proof.
  destruct r as [l|], p as [|b p]; simpl; try reflexivity.
  now rewrite append_assoc.
Qed.

Lemma read_chars_spec (s : string) :
  comments_closed s = true ->
  forall r k, (String.length s < k)%nat ->
    read_chars k (mkFILE s false) r
    = Some (stored r (line_text s), after_line s).
Proof.
  induction s as [|a t IH]; intros Hc r k Hk;
    (destruct k as [|k]; [simpl in Hk; lia|]).
  - reflexivity.
  - cbn [read_chars fgetc eof_ind pending line_text after_line].
    pose proof (comments_closed_tail a t Hc) as Ht.
    destruct (a =? newline)%char; [reflexivity|].
    destruct (a =? slash)%char eqn:A.
    + destruct t as [|b t'].
      * cbn [andb starts_with is_char ungetc EOF].
        destruct k as [|k]; [simpl in Hk; lia|].
        rewrite <- stored_push. reflexivity.
      * cbn [andb starts_with is_char ungetc pending].
        destruct (b =? slash)%char eqn:B.
        -- cbn [comments_closed starts_with] in Hc. rewrite A, B in Hc.
           cbn [andb after_newline] in Hc.
           assert (Hbn : (b =? newline)%char = false)
             by (apply Ascii.eqb_eq in B; subst; reflexivity).
           rewrite Hbn in Hc.
           destruct (after_newline t') as [v|] eqn:V;
             [|rewrite andb_false_l in Hc; discriminate].
           rewrite (skip_comment_spec t' v V) by (simpl in Hk; lia).
           reflexivity.
        -- rewrite IH by (trivial; simpl in Hk |- *; lia).
           now rewrite stored_push.
    + cbn [andb]. rewrite IH by (trivial; simpl in Hk; lia).
      now rewrite stored_push.
Qed.

Lemma nextline_at_eof (k : nat) :
  nextline (S k) (mkFILE EmptyString true) = Some (None, mkFILE EmptyString true).
Proof. reflexivity. Qed.

(** [nextline] delivers the next logical line. *)
Lemma nextline_spec (n : nat) :
  forall s, (String.length s <= n)%nat ->
    comments_closed s = true ->
    forall k, (String.length s + 2 <= k)%nat ->
      nextline k (mkFILE s false) = Some (next_logical_line s).
Proof.
  induction n as [n IHn] using lt_wf_ind. intros s Hn Hc k Hk.
  destruct k as [|k]; [lia|].
  cbn [nextline feof eof_ind].
  destruct (skip_leading_spec s k) as (c & fp1 & -> & Hu); [lia|].
  rewrite Hu. unfold trimmed, next_logical_line.
  rewrite (skip_blank_drop s).
  pose proof (drop_spaces_length s) as Hl.
  pose proof (comments_closed_drop s Hc) as Hcu.
  destruct (drop_spaces s) as [|a t] eqn:U.
  - destruct k as [|k]; [lia|]. reflexivity.
  - pose proof (drop_spaces_head s a t U) as Ha.
    rewrite (read_chars_spec (String a t) Hcu None k) by lia.
    cbn [line_text after_line skip_blank].
    rewrite Ha, (not_space_not_newline a Ha).
    destruct ((a =? slash)%char && starts_with slash t) eqn:Cm.
    + cbn [stored]. destruct t as [|b t']; [now rewrite andb_false_r in Cm|].
      cbn [comments_closed] in Hcu. rewrite Cm in Hcu.
      apply andb_true_iff in Cm as [_ B]. cbn [starts_with] in B.
      assert (Hbn : (b =? newline)%char = false)
        by (apply Ascii.eqb_eq in B; subst; reflexivity).
      cbn [after_newline] in Hcu. rewrite Hbn in Hcu.
      destruct (after_newline t') as [v|] eqn:V;
        [|rewrite andb_false_l in Hcu; discriminate].
      pose proof (after_newline_length t' v V) as Hv.
      simpl in Hl.
      rewrite (skip_blank_comment t' v V).
      apply (IHn (String.length v)); try lia.
      apply andb_true_iff in Hcu as [_ Hcu].
      apply andb_true_iff in Hcu as [_ Hcu].
      now apply (comments_closed_after t' v V).
    + cbn [line_text after_line].
      rewrite (not_space_not_newline a Ha), Cm. reflexivity.
Qed.

Lemma skip_blank_head_upto (n : nat) :
  forall s, (String.length s <= n)%nat ->
    forall m a t,
      skip_blank m s = String a t ->
      isspace a = false /\ (a =? slash)%char && starts_with slash t = false.
Proof.
  induction n as [|n IH]; intros s Hl m a t H;
    (destruct s as [|b u]; [discriminate|]); simpl in Hl; [lia|].
  cbn [skip_blank] in H. destruct m.
  - destruct (b =? newline)%char; (eapply IH; [|exact H]); lia.
  - destruct (isspace b) eqn:E; [eapply IH; [|exact H]; lia|].
    destruct ((b =? slash)%char && starts_with slash u) eqn:Cm.
    + destruct u as [|c u']; [discriminate|].
      eapply IH; [|exact H]. simpl in Hl. lia.
    + inversion H; subst. now split.
Qed.

Lemma skip_blank_head (s : string) (m : bool) (a : ascii) (t : string) :
  skip_blank m s = String a t ->
  isspace a = false /\ (a =? slash)%char && starts_with slash t = false.
Proof. apply (skip_blank_head_upto (String.length s)). lia. Qed.

Lemma skip_blank_spaces (ws x : string) :
  all_space ws = true -> skip_blank false (ws ++ x)%string = skip_blank false x.
Proof.
  induction ws as [|a t IH]; intros H; [reflexivity|].
  cbn [all_space] in H. apply andb_true_iff in H as [Ha Ht].
  change ((String a t ++ x)%string) with (String a (t ++ x)%string).
  cbn [skip_blank]. rewrite Ha. now apply IH.
Qed.

Lemma skip_blank_in_comment (c x : string) :
  has_char newline c = false ->
  skip_blank true (c ++ nl ++ x)%string = skip_blank false x.
Proof.
  induction c as [|a t IH]; intros H.
  - reflexivity.
  - cbn [has_char] in H. apply orb_false_iff in H as [Ha Ht].
    change ((String a t ++ nl ++ x)%string)
      with (String a (t ++ nl ++ x)%string).
    cbn [skip_blank]. rewrite Ha. now apply IH.
Qed.

Lemma line_text_no_newline (s : string) :
  has_char newline (line_text s) = false.
Proof.
  induction s as [|a t IH]; [reflexivity|]. cbn [line_text].
  destruct (a =? newline)%char eqn:A; [reflexivity|].
  destruct ((a =? slash)%char && starts_with slash t); [reflexivity|].
  cbn [has_char]. now rewrite A, IH.
Qed.

Lemma line_text_starts (c : ascii) (s : string) :
  starts_with c (line_text s) = true -> starts_with c s = true.
Proof.
  destruct s as [|a t]; [discriminate|]. cbn [line_text].
  destruct (a =? newline)%char; [discriminate|].
  destruct ((a =? slash)%char && starts_with slash t); [discriminate|].
  trivial.
Qed.

Lemma line_text_no_comment (s : string) :
  has_comment (line_text s) = false.
Proof.
  induction s as [|a t IH]; [reflexivity|]. cbn [line_text].
  destruct (a =? newline)%char; [reflexivity|].
  destruct ((a =? slash)%char && starts_with slash t) eqn:Cm; [reflexivity|].
  cbn [has_comment]. rewrite IH, orb_false_r.
  destruct (a =? slash)%char; [|reflexivity]. cbn [andb] in *.
  destruct (starts_with slash (line_text t)) eqn:S; [|reflexivity].
  apply line_text_starts in S. congruence.
Qed.

(** C8, as amended.  On a text in which every [//] has a newline after
    it, [nextline] returns, for any fuel beyond the length of the text
    plus 2, the next logical line: the first line that is neither blank
    nor a mere comment, cut at its newline or at its comment and without
    its leading white space (the blanks before the newline or the comment
    are kept), or the end-of-stream signal when no such line is left.  A
    returned line is not empty, does not start with white space and holds
    neither a newline nor [//].  Leading white space, blank lines and
    lines that hold only a newline-terminated comment are passed over;
    a text made of such lines only yields no instruction and no
    message. *)
Theorem C8_nextline_logical_line (text : string) :
  (comments_closed text = true ->
   forall k, (String.length text + 2 <= k)%nat ->
             nextline k (fopen text) = Some (next_logical_line text))
  /\ (forall line, fst (next_logical_line text) = Some line ->
        (exists a l, line = String a l /\ isspace a = false)
        /\ has_char newline line = false
        /\ has_comment line = false)
  /\ (forall ws, all_space ws = true ->
         next_logical_line (ws ++ text)%string = next_logical_line text)
  /\ (forall ws c, all_space ws = true -> has_char newline c = false ->
         next_logical_line (ws ++ "//" ++ c ++ nl ++ text)%string
         = next_logical_line text)
  /\ (comments_closed text = true -> skip_blank false text = EmptyString ->
      forall impl e k, (String.length text + 3 <= k)%nat ->
        scan_stream impl k e (fopen text) = Some (Return [] [])).
Proof.
  repeat split.
  - intros Hc k Hk. now apply (nextline_spec (String.length text)).
  - unfold next_logical_line in H.
    destruct (skip_blank false text) as [|a t] eqn:U; [discriminate|].
    destruct (skip_blank_head _ _ _ _ U) as [Ha Hcm].
    cbn [fst line_text] in H. rewrite (not_space_not_newline a Ha), Hcm in H.
    inversion H; subst. now exists a, (line_text t).
  - unfold next_logical_line in H.
    destruct (skip_blank false text) as [|a t] eqn:U; [discriminate|].
    cbn [fst] in H. inversion H; subst.
    exact (line_text_no_newline (String a t)).
  - unfold next_logical_line in H.
    destruct (skip_blank false text) as [|a t] eqn:U; [discriminate|].
    cbn [fst] in H. inversion H; subst.
    exact (line_text_no_comment (String a t)).
  - intros ws Hws. unfold next_logical_line.
    now rewrite skip_blank_spaces.
  - intros ws c Hws Hc. unfold next_logical_line.
    rewrite skip_blank_spaces by exact Hws.
    change (skip_blank false ("//" ++ c ++ nl ++ text)%string)
      with (skip_blank true (c ++ nl ++ text)%string).
    now rewrite skip_blank_in_comment.
  - intros Hc Hb impl e k Hk. destruct k as [|k]; [lia|].
    unfold scan_stream. cbn [scan_while].
    rewrite (nextline_spec (String.length text) text) by (trivial; lia).
    unfold next_logical_line. rewrite Hb. reflexivity.
Qed.

Lemma C8_nextline_logical_line_witness :
  nextline 60 (fopen ("   " ++ nl ++ "// a comment" ++ nl
                      ++ "  push constant 1 // one" ++ nl)%string)
  = Some (Some "push constant 1 ", mkFILE EmptyString false)
  /\ scan_stream flags 40 0 (fopen ("   " ++ nl ++ "// a comment" ++ nl)%string)
     = Some (Return [] []).
Proof.
  split.
  - apply (proj1 (C8_nextline_logical_line
                    ("   " ++ nl ++ "// a comment" ++ nl
                     ++ "  push constant 1 // one" ++ nl)%string)
                 eq_refl 60%nat).
    simpl. lia.
  - destruct (C8_nextline_logical_line
                ("   " ++ nl ++ "// a comment" ++ nl)%string)
      as (_ & _ & _ & _ & H).
    apply (H eq_refl eq_refl flags 0 40%nat). simpl. lia.
Defined.

(** C8 as stated fails.  The blank before a newline stays in the returned
    line, which is therefore not trimmed; and on a comment that runs to
    the end of the stream without a newline the loop that skips the
    comment reads [EOF] for ever, so no amount of fuel makes [nextline]
    return. *)
Lemma C8_not_trimmed_and_open_comment_loops :
  nextline 10 (fopen ("add " ++ nl)%string)
  = Some (Some "add ", mkFILE EmptyString false)
  /\ forall fuel, nextline fuel (fopen "//x") = None.
Proof.
  split; [reflexivity|].
  intros [|[|k]]; try reflexivity.
  cbn [nextline feof fopen eof_ind skip_leading fgetc pending].
  change (isspace "/") with false. cbv iota.
  cbn [ungetc pending read_chars fgetc eof_ind].
  change ("/" =? newline)%char with false.
  change ("/" =? slash)%char with true. cbv iota.
  cbn [is_char]. change ("/" =? slash)%char with true. cbv iota.
  now rewrite skip_comment_diverges.
Qed.

(** ** All the lines of a text *)

Lemma after_line_length (s : string) :
  (String.length (pending (after_line s)) <= Nat.pred (String.length s))%nat.
Proof.
  induction s as [|a t IH]; [simpl; lia|]. cbn [after_line].
  destruct (a =? newline)%char; [simpl; lia|].
  destruct ((a =? slash)%char && starts_with slash t).
  - destruct t as [|b t']; [simpl; lia|].
    destruct (after_newline t') as [v|] eqn:V; [|simpl; lia].
    apply after_newline_length in V. simpl. lia.
  - simpl in *. lia.
Qed.

Lemma after_line_closed (s : string) :
  comments_closed s = true ->
  comments_closed (pending (after_line s)) = true
  /\ (eof_ind (after_line s) = true -> pending (after_line s) = EmptyString).
Proof.
  induction s as [|a t IH]; intros Hc; [now split|]. cbn [after_line].
  pose proof (comments_closed_tail a t Hc) as Ht.
  destruct (a =? newline)%char; [split; [exact Ht|discriminate]|].
  destruct ((a =? slash)%char && starts_with slash t).
  - destruct t as [|b t']; [now split|].
    destruct (after_newline t') as [v|] eqn:V; [|now split].
    split; [|discriminate]. cbn [pending].
    apply (comments_closed_after t' v V).
    now apply comments_closed_tail in Ht.
  - now apply IH.
Qed.

Lemma skip_blank_length_upto (n : nat) :
  forall s m, (String.length s <= n)%nat ->
    (String.length (skip_blank m s) <= String.length s)%nat
    /\ (comments_closed s = true -> comments_closed (skip_blank m s) = true).
Proof.
  induction n as [|n IH]; intros s m Hl;
    (destruct s as [|b u]; [now split|]); simpl in Hl; [lia|].
  assert (Hu : forall m', (String.length (skip_blank m' u) <= String.length u)%nat
                          /\ (comments_closed u = true ->
                              comments_closed (skip_blank m' u) = true))
    by (intros m'; apply IH; lia).
  cbn [skip_blank]. destruct m.
  - destruct (b =? newline)%char;
      (split; [destruct (Hu false), (Hu true); simpl; lia|]);
      intros Hc; apply comments_closed_tail in Hc;
      [now apply (Hu false)|now apply (Hu true)].
  - destruct (isspace b).
    + split; [destruct (Hu false); simpl; lia|].
      intros Hc; apply comments_closed_tail in Hc. now apply (Hu false).
    + destruct ((b =? slash)%char && starts_with slash u); [|now split].
      destruct u as [|c u']; [split; [simpl; lia|reflexivity]|].
      destruct (IH u' true) as [H1 H2]; [simpl in Hl; lia|].
      split; [simpl; lia|].
      intros Hc. apply H2. now do 2 apply comments_closed_tail in Hc.
Qed.

Lemma next_logical_line_rest (s l : string) (fp : FILE) :
  next_logical_line s = (Some l, fp) ->
  (String.length (pending fp) < String.length s)%nat
  /\ (comments_closed s = true ->
      comments_closed (pending fp) = true
      /\ (eof_ind fp = true -> pending fp = EmptyString)).
Proof.
  unfold next_logical_line. intros H.
  destruct (skip_blank_length_upto (String.length s) s false (le_n _))
    as [Hl Hc].
  destruct (skip_blank false s) as [|a t] eqn:U; [discriminate|].
  assert (Hfp : fp = after_line (String a t)) by (now inversion H).
  subst fp. clear H.
  pose proof (after_line_length (String a t)) as Ha. split.
  - change (String.length (String a t)) with (S (String.length t)) in *.
    cbn [Nat.pred] in Ha. lia.
  - intros Hs. apply after_line_closed. now apply Hc.
Qed.

Lemma lines_upto_stable (n : nat) :
  forall m s, (String.length s < n)%nat -> (String.length s < m)%nat ->
              lines_upto n s = lines_upto m s.
Proof.
  induction n as [|n IH]; intros m s Hn Hm; [lia|].
  destruct m as [|m]; [lia|]. cbn [lines_upto].
  destruct (next_logical_line s) as [[l|] fp] eqn:E; [|reflexivity].
  apply next_logical_line_rest in E as [E _]. f_equal. apply IH; lia.
Qed.

Lemma logical_lines_unfold (s : string) :
  logical_lines s
  = match next_logical_line s with
    | (None, _) => []
    | (Some l, fp) => l :: logical_lines (pending fp)
    end.
Proof.
  unfold logical_lines at 1. cbn [lines_upto].
  destruct (next_logical_line s) as [[l|] fp] eqn:E; [|reflexivity].
  apply next_logical_line_rest in E as [E _]. f_equal.
  unfold logical_lines. apply lines_upto_stable; lia.
Qed.

(** The stream satisfies: the end-of-file indicator is only set when
    nothing is left. *)
Lemma nextline_spec_file (fp : FILE) :
  (eof_ind fp = true -> pending fp = EmptyString) ->
  comments_closed (pending fp) = true ->
  forall k, (String.length (pending fp) + 2 <= k)%nat ->
    nextline k fp = Some (next_logical_line (pending fp)).
Proof.
  destruct fp as [s [|]]; cbn [eof_ind pending]; intros He Hc k Hk.
  - rewrite (He eq_refl) in *. destruct k as [|k]; [lia|]. reflexivity.
  - now apply (nextline_spec (String.length s)).
Qed.

Lemma read_lines_spec (n : nat) :
  forall fp, (String.length (pending fp) <= n)%nat ->
    (eof_ind fp = true -> pending fp = EmptyString) ->
    comments_closed (pending fp) = true ->
    forall k, (String.length (pending fp) + 3 <= k)%nat ->
      read_lines k fp = Some (logical_lines (pending fp)).
Proof.
  induction n as [n IHn] using lt_wf_ind. intros fp Hn He Hc k Hk.
  destruct k as [|k]; [lia|]. cbn [read_lines].
  rewrite (nextline_spec_file fp He Hc k) by lia.
  rewrite logical_lines_unfold.
  destruct (next_logical_line (pending fp)) as [[l|] fp'] eqn:E;
    [|reflexivity].
  apply next_logical_line_rest in E as [Hl Hr].
  destruct (Hr Hc) as [Hc' He'].
  rewrite (IHn (String.length (pending fp'))); trivial; lia.
Qed.

Lemma read_lines_text (text : string) :
  comments_closed text = true ->
  forall k, (String.length text + 3 <= k)%nat ->
    read_lines k (fopen text) = Some (logical_lines text).
Proof.
  intros Hc k Hk.
  apply (read_lines_spec (String.length text) (fopen text));
    trivial; discriminate.
Qed.

(** ** The argument loop does not depend on what was recorded before *)

Section Frame.

Variable impl : Impl.

Lemma after_clean (s : Scan) : after s (clean s) = s.
Proof.
  destruct s as [t f e err]. unfold after, clean; simpl.
  now rewrite orb_false_r, app_nil_r.
Qed.

Lemma after_report (s d : Scan) (x : Diag) :
  after s (report x d) = report x (after s d).
Proof. unfold after, report; simpl. now rewrite app_assoc. Qed.

Lemma after_set_failure (s d : Scan) (b : bool) :
  after s (set_failure (failure d || b) d)
  = set_failure (failure (after s d) || b) (after s d).
Proof. unfold after, set_failure; simpl. now rewrite orb_assoc. Qed.

Lemma after_set_failure_true (s d : Scan) :
  after s (set_failure true d) = set_failure true (after s d).
Proof. unfold after, set_failure; simpl. now rewrite orb_true_r. Qed.

Lemma after_set_errno (s d : Scan) (e : Z) :
  after s (set_errno e d) = set_errno e (after s d).
Proof. reflexivity. Qed.

Lemma scan_memory_after cmdt argn w argv s d :
  scan_memory impl cmdt argn w argv (after s d)
  = (fst (scan_memory impl cmdt argn w argv d),
     after s (snd (scan_memory impl cmdt argn w argv d))).
Proof.
  unfold scan_memory.
  destruct (lookup memory w) as [m|]; simpl;
    destruct (CommandType_eqb cmdt POP && _); simpl;
    repeat (rewrite after_set_failure_true || rewrite after_report);
    reflexivity.
Qed.

Lemma scan_num_after cmdt line argn w argv s d :
  scan_num impl cmdt line argn w argv (after s d)
  = (fst (scan_num impl cmdt line argn w argv d),
     after s (snd (scan_num impl cmdt line argn w argv d))).
Proof.
  unfold scan_num.
  set (p := strtoll w).
  assert (E1 : (if sr_erange p then set_errno ERANGE (after s d) else after s d)
               = after s (if sr_erange p then set_errno ERANGE d else d))
    by (destruct (sr_erange p); reflexivity).
  rewrite E1. set (d1 := if sr_erange p then set_errno ERANGE d else d).
  change (errno (after s d1)) with (errno d1).
  set (c := (errno d1 =? ERANGE) || Nat.eqb (sr_end p) O).
  assert (E2 : (if c then set_failure true
                            (report (FailedToReadNumber w line) (after s d1))
                else after s d1)
               = after s (if c then set_failure true
                                      (report (FailedToReadNumber w line) d1)
                          else d1)).
  { destruct c; [|reflexivity].
    now rewrite after_set_failure_true, after_report. }
  rewrite E2.
  set (d2 := if c then _ else d1).
  destruct (pop_or_push impl cmdt);
    [destruct (is_mem TEMP _);
     destruct ((sr_value p <? 0) || _)|];
    cbv beta iota zeta; unfold fst, snd;
    rewrite <- ?after_report, <- after_set_failure; reflexivity.
Qed.

Lemma scan_arg_after cmdt line kind argn w argv s d :
  scan_arg impl cmdt line kind argn w argv (after s d)
  = (fst (scan_arg impl cmdt line kind argn w argv d),
     after s (snd (scan_arg impl cmdt line kind argn w argv d))).
Proof.
  destruct kind; simpl; try reflexivity.
  - apply scan_memory_after.
  - apply scan_num_after.
Qed.

Lemma for_args_after n cmdt fmt line :
  forall i argn save argv s d,
    for_args impl n cmdt fmt line i argn save argv (after s d)
    = (fst (for_args impl n cmdt fmt line i argn save argv d),
       after s (snd (for_args impl n cmdt fmt line i argn save argv d))).
Proof.
  induction n as [|n IH]; intros; simpl; [reflexivity|].
  destruct (strtok save tokdelim) as [[w|] save'].
  - rewrite scan_arg_after.
    destruct (scan_arg impl cmdt line (fmt_arg fmt i) argn w argv d)
      as [argv' d']; simpl.
    apply IH.
  - rewrite <- after_report, <- after_set_failure_true. apply IH.
Qed.

(** The call of [malloc] in [first_slot] only touches [errno]. *)
Lemma first_slot_split (fmt : CommandFormat) (w : string) (s : Scan) :
  first_slot fmt w s = (first_cells fmt w, allocated fmt s).
Proof.
  unfold first_cells, allocated, first_slot, malloc_argv.
  destruct (CmdArgType_eqb (fmt_arg fmt 0) ARG_NONE);
    destruct (_ >? PTRDIFF_MAX); reflexivity.
Qed.

(** Only the request of a [return] line (and of the entry of [NONE],
    which is never looked up) is refused. *)
Lemma allocated_cmd (c : CommandType) (s : Scan) :
  allocated (cmd_fmt c) s
  = match c with
    | RETURN | NONE => set_errno ENOMEM s
    | _ => s
    end.
Proof. destruct c; reflexivity. Qed.

Lemma allocated_after (fmt : CommandFormat) (s d : Scan) :
  allocated fmt (after s d) = after s (allocated fmt d).
Proof.
  unfold allocated, first_slot, malloc_argv.
  destruct (CmdArgType_eqb (fmt_arg fmt 0) ARG_NONE);
    destruct (_ >? PTRDIFF_MAX); reflexivity.
Qed.

Lemma allocated_fields (fmt : CommandFormat) (s : Scan) :
  toks (allocated fmt s) = toks s
  /\ failure (allocated fmt s) = failure s
  /\ stderr (allocated fmt s) = stderr s.
Proof.
  unfold allocated, first_slot, malloc_argv.
  destruct (CmdArgType_eqb (fmt_arg fmt 0) ARG_NONE);
    destruct (_ >? PTRDIFF_MAX); repeat split.
Qed.

Lemma allocated_clean (fmt : CommandFormat) (s : Scan) :
  allocated fmt (clean s) = clean (allocated fmt s).
Proof.
  unfold allocated, first_slot, malloc_argv.
  destruct (CmdArgType_eqb (fmt_arg fmt 0) ARG_NONE);
    destruct (_ >? PTRDIFF_MAX); reflexivity.
Qed.

(** The copy of a word into a block of [strlen] bytes: the characters
    fill the block and the terminating NUL lands past its end. *)
Lemma split_at_length (w r : string) :
  split_at (String.length w) (w ++ r)%string = (w, r).
Proof.
  induction w as [|c t IH]; simpl; [now destruct r|]. now rewrite IH.
Qed.

Lemma strcpy_strlen (w : string) :
  strcpy (String.length w) w
  = mkBlock (String.length w) w (String zero EmptyString).
Proof. unfold strcpy. now rewrite split_at_length. Qed.

End Frame.

(** ** One line, relative to the lines before it *)

Section Lines.

Variable impl : Impl.

Lemma for_args_toks n cmdt fmt line i argn save argv s :
  toks (snd (for_args impl n cmdt fmt line i argn save argv s)) = toks s.
Proof.
  rewrite <- (after_clean s) at 1. now rewrite for_args_after.
Qed.

Lemma scan_line_join (s : Scan) (l : string) :
  scan_line impl s l
  = match scan_line impl (clean s) l with
    | None => None
    | Some d => Some (join s d)
    end.
Proof.
  unfold scan_line.
  destruct (strtok (c_str l) tokdelim) as [[w|] save]; [|reflexivity].
  destruct (CommandType_eqb (cmdtype w) NONE).
  - f_equal. destruct s as [t f e err]. unfold join, report, clean; simpl.
    rewrite app_nil_r, orb_false_r. now destruct f.
  - rewrite !first_slot_split.
    destruct (first_cells (cmd_fmt (cmdtype w)) w) as [[argn n] argv].
    rewrite <- (after_clean s) at 1. rewrite allocated_after, for_args_after.
    pose proof (for_args_toks (Z.to_nat (nargs (cmd_fmt (cmdtype w)) - 1))
                  (cmdtype w) (cmd_fmt (cmdtype w))
                  (line_after_strtok tokdelim (c_str l)) 1 argn save argv
                  (allocated (cmd_fmt (cmdtype w)) (clean s))) as Ht.
    destruct (for_args impl _ _ _ _ _ _ _ _ (allocated _ (clean s)))
      as [argv' d].
    rewrite allocated_clean in Ht.
    simpl in *. f_equal.
    destruct s as [t f e err], d as [dt df de derr]; simpl in *; subst dt.
    unfold append_node, join, after; simpl.
    destruct f, df; simpl; rewrite ?app_nil_r; reflexivity.
Qed.


Lemma scan_line_local_toks (e : Z) (d : Scan) (l : string) :
  scan_line impl (start e) l = Some d ->
  failure d = true -> toks d = [].
Proof.
  unfold scan_line.
  destruct (strtok (c_str l) tokdelim) as [[w|] save]; [|discriminate].
  destruct (CommandType_eqb (cmdtype w) NONE).
  - intros H; inversion H; subst. discriminate.
  - rewrite first_slot_split.
    destruct (first_cells (cmd_fmt (cmdtype w)) w) as [[argn n] argv].
    pose proof (for_args_toks (Z.to_nat (nargs (cmd_fmt (cmdtype w)) - 1))
                  (cmdtype w) (cmd_fmt (cmdtype w))
                  (line_after_strtok tokdelim (c_str l)) 1 argn save argv
                  (allocated (cmd_fmt (cmdtype w)) (start e))) as Ht.
    destruct (for_args impl _ _ _ _ _ _ _ _ (allocated _ (start e)))
      as [argv' d'].
    rewrite (proj1 (allocated_fields _ _)) in Ht.
    simpl in *. intros H; inversion H; subst. unfold append_node.
    destruct (failure d') eqn:F; [intros _; exact Ht|].
    simpl. discriminate.
Qed.

Lemma scan_lines_app (s : Scan) (pre post : list string) :
  scan_lines impl s (pre ++ post)
  = match scan_lines impl s pre with
    | None => None
    | Some s1 => scan_lines impl s1 post
    end.
Proof.
  revert s. induction pre as [|l pre IH]; intros s; simpl; [reflexivity|].
  destruct (scan_line impl s l); [apply IH|reflexivity].
Qed.




End Lines.

Section Append.

Variable impl : Impl.

Lemma clean_start (s : Scan) : clean s = start (errno s).
Proof. reflexivity. Qed.

Lemma scan_line_local_one (e : Z) (d : Scan) (l : string) (t : TokenList) :
  scan_line impl (start e) l = Some d ->
  hd_error (toks d) = Some t -> toks d = [t].
Proof.
  unfold scan_line.
  destruct (strtok (c_str l) tokdelim) as [[w|] save]; [|discriminate].
  destruct (CommandType_eqb (cmdtype w) NONE).
  - intros H; inversion H; subst. discriminate.
  - rewrite first_slot_split.
    destruct (first_cells (cmd_fmt (cmdtype w)) w) as [[argn n] argv].
    pose proof (for_args_toks impl (Z.to_nat (nargs (cmd_fmt (cmdtype w)) - 1))
                  (cmdtype w) (cmd_fmt (cmdtype w))
                  (line_after_strtok tokdelim (c_str l)) 1 argn save argv
                  (allocated (cmd_fmt (cmdtype w)) (start e))) as Ht.
    destruct (for_args impl _ _ _ _ _ _ _ _ (allocated _ (start e)))
      as [argv' d'].
    rewrite (proj1 (allocated_fields _ _)) in Ht.
    simpl in *. intros H; inversion H; subst. unfold append_node.
    destruct (failure d'); simpl; rewrite Ht; simpl; [discriminate|].
    now intros X; inversion X.
Qed.

Lemma line_instr_inv (e : Z) (l : string) (t : TokenList) :
  line_instr impl e l = Some t ->
  exists d, scan_line impl (start e) l = Some d
            /\ failure d = false /\ toks d = [t].
Proof.
  unfold line_instr.
  destruct (scan_line impl (start e) l) as [d|] eqn:E; [|discriminate].
  destruct (failure d) eqn:F; [discriminate|].
  intros H. exists d. repeat split; trivial.
  eapply scan_line_local_one; eauto.
Qed.


End Append.



(** ** The scan of a line, from its words *)

Section Words.

Variable impl : Impl.

Lemma for_args_words n cmdt fmt line :
  forall i argn save argv s,
    for_args impl n cmdt fmt line i argn save argv s
    = for_words impl n cmdt fmt line i argn (tokens save) argv s.
Proof.
  induction n as [|n IH]; intros; simpl; [reflexivity|].
  rewrite (tokens_unfold save).
  destruct (strtok save tokdelim) as [[w|] save'] eqn:E.
  - destruct (scan_arg impl cmdt line (fmt_arg fmt i) argn w argv s).
    apply IH.
  - apply strtok_none_save in E; subst. rewrite IH. now rewrite tokens_empty.
Qed.

Lemma scan_line_words (s : Scan) (l : string) :
  scan_line impl s l
  = scan_words impl s (line_after_strtok tokdelim (c_str l))
               (tokens (c_str l)).
Proof.
  unfold scan_line, scan_words. rewrite (tokens_unfold (c_str l)).
  destruct (strtok (c_str l) tokdelim) as [[w|] save]; [|reflexivity].
  destruct (CommandType_eqb (cmdtype w) NONE); [reflexivity|].
  rewrite first_slot_split.
  destruct (first_cells (cmd_fmt (cmdtype w)) w) as [[argn n] argv].
  now rewrite for_args_words.
Qed.

Lemma for_words_after n cmdt fmt line :
  forall i argn ws argv s d,
    for_words impl n cmdt fmt line i argn ws argv (after s d)
    = (fst (for_words impl n cmdt fmt line i argn ws argv d),
       after s (snd (for_words impl n cmdt fmt line i argn ws argv d))).
Proof.
  induction n as [|n IH]; intros; simpl; [reflexivity|].
  destruct ws as [|w ws].
  - rewrite <- after_report, <- after_set_failure_true. apply IH.
  - rewrite scan_arg_after.
    destruct (scan_arg impl cmdt line (fmt_arg fmt i) argn w argv d)
      as [argv' d']; simpl.
    apply IH.
Qed.

(** The loop only appends to [stderr] and only raises [failure]. *)
Lemma for_words_stderr n cmdt fmt line i argn ws argv s :
  stderr (snd (for_words impl n cmdt fmt line i argn ws argv s))
  = stderr s
    ++ stderr (snd (for_words impl n cmdt fmt line i argn ws argv (clean s))).
Proof.
  rewrite <- (after_clean s) at 1. now rewrite for_words_after.
Qed.

Lemma for_words_failure n cmdt fmt line i argn ws argv s :
  failure (snd (for_words impl n cmdt fmt line i argn ws argv s))
  = failure s
    || failure (snd (for_words impl n cmdt fmt line i argn ws argv (clean s))).
Proof.
  rewrite <- (after_clean s) at 1. now rewrite for_words_after.
Qed.

Lemma for_words_toks n cmdt fmt line i argn ws argv s :
  toks (snd (for_words impl n cmdt fmt line i argn ws argv s)) = toks s.
Proof.
  rewrite <- (after_clean s) at 1. now rewrite for_words_after.
Qed.

Lemma for_words_cons n cmdt fmt line i argn w ws argv s :
  for_words impl (S n) cmdt fmt line i argn (w :: ws) argv s
  = for_words impl n cmdt fmt line (i + 1) (argn + 1) ws
      (fst (scan_arg impl cmdt line (fmt_arg fmt i) argn w argv s))
      (snd (scan_arg impl cmdt line (fmt_arg fmt i) argn w argv s)).
Proof.
  simpl. now destruct (scan_arg impl cmdt line (fmt_arg fmt i) argn w argv s).
Qed.

Lemma added_app (s s' : Scan) (ds : list Diag) :
  stderr s' = stderr s ++ ds -> new_diags s s' = ds.
Proof.
  unfold new_diags, added. intros ->.
  rewrite skipn_app, skipn_all, Nat.sub_diag. reflexivity.
Qed.

End Words.

(** ** What the scan reads of errno *)

Section Errno.

Variable impl : Impl.

Lemma alike_refl (s : Scan) : alike s s.
Proof. repeat split. Qed.











End Errno.

(** ** Writing to the constant segment *)

Section PopConstant.

Variable impl : Impl.

(** Outside [pop] lines the argument loop never prints the
    write-to-constant message. *)
Lemma scan_arg_no_pop_message cmdt line kind argn w argv s :
  CommandType_eqb cmdt POP = false ->
  ~ In PopOnConstant (stderr s) ->
  ~ In PopOnConstant
      (stderr (snd (scan_arg impl cmdt line kind argn w argv s))).
Proof.
  intros Hc Hs. destruct kind; unfold scan_arg; trivial.
  - unfold scan_memory. rewrite Hc.
    destruct (lookup memory w); simpl; trivial.
    rewrite in_app_iff. intros [H|[H|[]]]; [tauto|discriminate].
  - unfold scan_num.
    repeat match goal with
           | |- context [if ?c then _ else _] => destruct c
           end; simpl; rewrite ?in_app_iff; simpl;
      intuition discriminate.
Qed.

Lemma for_words_no_pop_message n cmdt fmt line :
  CommandType_eqb cmdt POP = false ->
  forall i argn ws argv s,
    ~ In PopOnConstant (stderr s) ->
    ~ In PopOnConstant
        (stderr (snd (for_words impl n cmdt fmt line i argn ws argv s))).
Proof.
  intros Hc. induction n as [|n IH]; intros; simpl; trivial.
  destruct ws as [|w ws].
  - apply IH. simpl. rewrite in_app_iff. simpl. intuition discriminate.
  - pose proof (scan_arg_no_pop_message cmdt line (fmt_arg fmt i) argn w
                  argv s Hc H) as Hs.
    destruct (scan_arg impl cmdt line (fmt_arg fmt i) argn w argv s).
    now apply IH.
Qed.

(** C3.  A line [pop constant n] prints the write-to-constant message,
    sets [failure] and links no instruction, whatever follows the segment
    word; a [push] line never prints that message. *)
Theorem C3_pop_constant (s : Scan) (l : string) (rest : list string) :
  (tokens (c_str l) = "pop" :: "constant" :: rest ->
   exists s', scan_line impl s l = Some s'
              /\ In PopOnConstant (new_diags s s')
              /\ failure s' = true
              /\ toks s' = toks s)
  /\
  (tokens (c_str l) = "push" :: rest ->
   exists s', scan_line impl s l = Some s'
              /\ ~ In PopOnConstant (new_diags s s')).
Proof.
  split; intros H; rewrite scan_line_words, H; unfold scan_words.
  - change (cmdtype "pop") with POP. cbn [CommandType_eqb].
    change (first_cells (cmd_fmt POP) "pop") with (0, 2, [@None CmdArg; None]).
    change (allocated (cmd_fmt POP) s) with s.
    cbv beta iota. change (Z.to_nat (nargs (cmd_fmt POP) - 1)) with 2%nat.
    rewrite for_words_cons.
    change (fmt_arg (cmd_fmt POP) 1) with ARG_MEMORY.
    set (line := line_after_strtok tokdelim (c_str l)).
    assert (E : scan_arg impl POP line ARG_MEMORY 0 "constant" [None; None] s
                = ([Some (A_mem CONSTANT); None],
                   set_failure true (report PopOnConstant s)))
      by reflexivity.
    rewrite E. clear E. unfold fst, snd.
    set (s1 := set_failure true (report PopOnConstant s)).
    pose proof (for_words_stderr impl 1 POP (cmd_fmt POP) line (1 + 1) (0 + 1)
                  rest [Some (A_mem CONSTANT); None] s1) as He.
    pose proof (for_words_failure impl 1 POP (cmd_fmt POP) line (1 + 1) (0 + 1)
                  rest [Some (A_mem CONSTANT); None] s1) as Hf.
    pose proof (for_words_toks impl 1 POP (cmd_fmt POP) line (1 + 1) (0 + 1)
                  rest [Some (A_mem CONSTANT); None] s1) as Ht.
    destruct (for_words impl 1 POP (cmd_fmt POP) line (1 + 1) (0 + 1)
                rest [Some (A_mem CONSTANT); None] s1) as [argv' s2].
    set (d := snd (for_words impl 1 POP (cmd_fmt POP) line (1 + 1) (0 + 1)
                rest [Some (A_mem CONSTANT); None] (clean s1))) in *.
    simpl in He, Hf, Ht.
    exists s2. unfold append_node. rewrite Hf.
    repeat split; trivial.
    rewrite (added_app s s2 (PopOnConstant :: stderr d)).
    + now left.
    + rewrite He, <- app_assoc. reflexivity.
  - change (cmdtype "push") with PUSH. cbn [CommandType_eqb].
    change (first_cells (cmd_fmt PUSH) "push") with (0, 2, [@None CmdArg; None]).
    change (allocated (cmd_fmt PUSH) s) with s.
    cbv beta iota. change (Z.to_nat (nargs (cmd_fmt PUSH) - 1)) with 2%nat.
    set (line := line_after_strtok tokdelim (c_str l)).
    pose proof (for_words_stderr impl 2 PUSH (cmd_fmt PUSH) line 1 0
                  rest [None; None] s) as He.
    pose proof (for_words_no_pop_message 2 PUSH (cmd_fmt PUSH) line eq_refl
                  1 0 rest [None; None] (clean s) (fun x => x)) as Hn.
    destruct (for_words impl 2 PUSH (cmd_fmt PUSH) line 1 0
                rest [None; None] s) as [argv' s2].
    set (d := snd (for_words impl 2 PUSH (cmd_fmt PUSH) line 1 0
                rest [None; None] (clean s))) in *.
    simpl in He. eexists. split; [reflexivity|].
    rewrite (added_app s _ (stderr d)); [exact Hn|].
    unfold append_node. now destruct (failure s2).
Qed.

End PopConstant.

Lemma C3_pop_constant_witness :
  tokens (c_str "pop constant 5") = ["pop"; "constant"; "5"]
  /\ exists s', scan_line flags (start 0) "pop constant 5" = Some s'
                /\ In PopOnConstant (new_diags (start 0) s')
                /\ failure s' = true
                /\ toks s' = [].
Proof.
  split; [reflexivity|].
  exact (proj1 (C3_pop_constant flags (start 0) "pop constant 5" ["5"])
               eq_refl).
Defined.

(** ** The operand of push and pop *)

Lemma land_lor_absorb (a b : Z) : Z.land a (Z.lor b a) = a.
Proof.
  apply Z.bits_inj'. intros n _.
  rewrite Z.land_spec, Z.lor_spec.
  destruct (Z.testbit a n), (Z.testbit b n); reflexivity.
Qed.

Lemma land_lor_absorb_l (a b : Z) : Z.land a (Z.lor a b) = a.
Proof. rewrite Z.lor_comm. apply land_lor_absorb. Qed.

Section PushPop.

Variable impl : Impl.
Hypothesis push_nonzero : cmd_val impl PUSH <> 0.
Hypothesis pop_nonzero : cmd_val impl POP <> 0.

Lemma pop_or_push_PUSH : pop_or_push impl PUSH = true.
Proof.
  unfold pop_or_push. rewrite land_lor_absorb.
  apply negb_true_iff, Z.eqb_neq, push_nonzero.
Qed.

Lemma pop_or_push_POP : pop_or_push impl POP = true.
Proof.
  unfold pop_or_push. rewrite land_lor_absorb_l.
  apply negb_true_iff, Z.eqb_neq, pop_nonzero.
Qed.

(** The number slot of a [push] or [pop] line whose segment slot holds
    [m]. *)
Lemma scan_num_push_pop cmdt line w m s :
  cmdt = PUSH \/ cmdt = POP ->
  let num := sr_value (strtoll w) in
  let s1 := if sr_erange (strtoll w) then set_errno ERANGE s else s in
  let s2 := if parse_fails (errno s) w
            then set_failure true (report (FailedToReadNumber w line) s1)
            else s1 in
  let s3 := if in_range m num then s2 else report (range_diag m num) s2 in
  scan_num impl cmdt line 1 w [Some (A_mem m); None] s
  = ([Some (A_mem m); Some (A_num (to_int num))],
     set_failure (failure s2 || negb (in_range m num)) s3).
Proof.
  intros Hc. unfold scan_num.
  assert (Hp : pop_or_push impl cmdt = true)
    by (destruct Hc; subst; [apply pop_or_push_PUSH|apply pop_or_push_POP]).
  rewrite Hp.
  change (read_mem impl [Some (A_mem m); None] (1 - 1)) with (Some m).
  unfold is_mem, parse_fails, in_range, range_diag.
  assert (Hr : forall n lim, (n <? 0) || (n >? lim)
                             = negb ((0 <=? n) && (n <=? lim))).
  { intros n lim. rewrite Z.gtb_ltb, negb_andb, <- Z.ltb_antisym.
    f_equal. now rewrite <- Z.ltb_antisym. }
  rewrite !Hr.
  change (store [Some (A_mem m); None] 1
            (A_num (to_int (sr_value (strtoll w)))))
    with [Some (A_mem m); Some (A_num (to_int (sr_value (strtoll w))))].
  generalize (sr_value (strtoll w)); intros num.
  generalize (Nat.eqb (sr_end (strtoll w)) O); intros bend.
  destruct (sr_erange (strtoll w)), (Memory_eqb m TEMP);
    cbv iota; cbn [errno set_errno];
    generalize (0 <=? num), (num <=? 7), (num <=? 32767);
    intros b0 b7 b32767;
    generalize (errno s =? ERANGE); intros be;
    change (ERANGE =? ERANGE) with true;
    destruct b0, b7, b32767, bend, be; reflexivity.
Qed.

(** A [push] or [pop] line whose segment word is in the table [memory]. *)
Lemma push_pop_line c cmdt seg m w rest s l :
  (c = "push" /\ cmdt = PUSH) \/ (c = "pop" /\ cmdt = POP) ->
  tokens (c_str l) = c :: seg :: w :: rest ->
  lookup memory seg = Some m ->
  let line := line_after_strtok tokdelim (c_str l) in
  let num := sr_value (strtoll w) in
  let s0 := if CommandType_eqb cmdt POP && Memory_eqb m CONSTANT
            then set_failure true (report PopOnConstant s) else s in
  let s1 := if sr_erange (strtoll w) then set_errno ERANGE s0 else s0 in
  let s2 := if parse_fails (errno s) w
            then set_failure true (report (FailedToReadNumber w line) s1)
            else s1 in
  let s3 := if in_range m num then s2 else report (range_diag m num) s2 in
  scan_line impl s l
  = Some (append_node cmdt 2 [Some (A_mem m); Some (A_num (to_int num))]
            (set_failure (failure s2 || negb (in_range m num)) s3)).
Proof.
  intros Hc Ht Hm. rewrite scan_line_words, Ht. unfold scan_words.
  assert (Hcmd : cmdtype c = cmdt) by (destruct Hc as [[-> ->]|[-> ->]]; reflexivity).
  rewrite Hcmd.
  assert (Hn : CommandType_eqb cmdt NONE = false)
    by (destruct Hc as [[_ ->]|[_ ->]]; reflexivity).
  rewrite Hn.
  assert (Hf : first_cells (cmd_fmt cmdt) c = (0, 2, [@None CmdArg; None]))
    by (destruct Hc as [[-> ->]|[-> ->]]; reflexivity).
  assert (Ha : forall x, allocated (cmd_fmt cmdt) x = x)
    by (intros x; destruct Hc as [[-> ->]|[-> ->]]; reflexivity).
  rewrite Hf, Ha. cbv beta iota.
  assert (Hk : Z.to_nat (nargs (cmd_fmt cmdt) - 1) = 2%nat)
    by (destruct Hc as [[_ ->]|[_ ->]]; reflexivity).
  assert (H1 : fmt_arg (cmd_fmt cmdt) 1 = ARG_MEMORY)
    by (destruct Hc as [[_ ->]|[_ ->]]; reflexivity).
  assert (H2 : fmt_arg (cmd_fmt cmdt) (1 + 1) = ARG_NUM)
    by (destruct Hc as [[_ ->]|[_ ->]]; reflexivity).
  assert (E : scan_arg impl cmdt (line_after_strtok tokdelim (c_str l))
                ARG_MEMORY 0 seg [None; None] s
              = ([Some (A_mem m); None],
                 if CommandType_eqb cmdt POP && Memory_eqb m CONSTANT
                 then set_failure true (report PopOnConstant s) else s)).
  { unfold scan_arg, scan_memory. rewrite Hm. reflexivity. }
  assert (He : errno (if CommandType_eqb cmdt POP && Memory_eqb m CONSTANT
                      then set_failure true (report PopOnConstant s) else s)
               = errno s)
    by (destruct (_ && _); reflexivity).
  rewrite Hk, for_words_cons, H1, E. cbn [fst snd].
  rewrite for_words_cons, H2. unfold scan_arg. change (0 + 1) with 1.
  rewrite scan_num_push_pop
    by (destruct Hc as [[_ ->]|[_ ->]]; [now left|now right]).
  cbn [fst snd for_words]. cbv zeta. rewrite He. reflexivity.
Qed.

End PushPop.

Lemma to_int_small (n : Z) : - 2 ^ 31 <= n < 2 ^ 31 -> to_int n = n.
Proof. intros H. unfold to_int. rewrite Z.mod_small; lia. Qed.

Lemma in_range_iff (m : Memory) (num : Z) :
  in_range m num = true
  <-> 0 <= num <= match m with TEMP => 7 | _ => 32767 end.
Proof.
  unfold in_range. rewrite andb_true_iff, Z.leb_le, Z.leb_le.
  destruct m; simpl; tauto.
Qed.

Lemma stderr_append_node c n a x : stderr (append_node c n a x) = stderr x.
Proof. unfold append_node. now destruct (failure x). Qed.

Lemma failure_append_node c n a x : failure (append_node c n a x) = failure x.
Proof. unfold append_node. now destruct (failure x) eqn:E. Qed.

Lemma toks_append_node c n a x :
  toks (append_node c n a x)
  = if failure x then toks x else toks x ++ [mkTokenList c n a].
Proof. unfold append_node. now destruct (failure x). Qed.

Lemma stderr_append_node_diags c n a (s x : Scan) :
  new_diags s (append_node c n a x) = new_diags s x.
Proof. unfold new_diags, added. now rewrite stderr_append_node. Qed.

(** Reads the messages added between two states off the state itself. *)
Ltac read_new_diags :=
  match goal with
  | |- context [new_diags ?s ?x] =>
      let E := fresh "E" in
      eassert (E : stderr x = stderr s ++ _);
      [ cbn [stderr set_failure report set_errno]; rewrite <- ?app_assoc;
        first [reflexivity | symmetry; apply app_nil_r]
      | rewrite (added_app s x _ E); clear E ]
  end.

(** C2.  On a [push] or [pop] line whose segment word is in the table,
    the number read from the operand word passes the range check exactly
    when it lies in 0..7 for [temp] and in 0..32767 for the other
    segments: inside the bounds no range message is printed, and the line
    is linked when nothing else fails; outside them the range message
    for that number is printed, [failure] is set and nothing is linked.
    (The enumerators [PUSH] and [POP] are taken to be nonzero.) *)
Theorem C2_operand_range (impl : Impl) :
  cmd_val impl PUSH <> 0 -> cmd_val impl POP <> 0 ->
  forall (s : Scan) (l c seg w : string) (m : Memory) (rest : list string),
    c = "push" \/ c = "pop" ->
    tokens (c_str l) = c :: seg :: w :: rest ->
    lookup memory seg = Some m ->
    let num := sr_value (strtoll w) in
    let limit := match m with TEMP => 7 | _ => 32767 end in
    exists s',
      scan_line impl s l = Some s'
      /\ (0 <= num <= limit ->
          filter is_range_diag (new_diags s s') = []
          /\ (failure s = false -> parse_fails (errno s) w = false ->
              (c = "pop" -> m <> CONSTANT) ->
              failure s' = false
              /\ toks s' = toks s ++ [mkTokenList (cmdtype c) 2
                                        [Some (A_mem m); Some (A_num num)]]))
      /\ (~ 0 <= num <= limit ->
          filter is_range_diag (new_diags s s') = [range_diag m num]
          /\ failure s' = true
          /\ toks s' = toks s).
Proof.
  intros Hpush Hpop s l c seg w m rest Hc Ht Hm num limit.
  assert (Hc' : (c = "push" /\ cmdtype c = PUSH)
                \/ (c = "pop" /\ cmdtype c = POP))
    by (destruct Hc as [->| ->]; [left|right]; split; reflexivity).
  pose proof (push_pop_line impl Hpush Hpop c (cmdtype c) seg m w rest s l
                Hc' Ht Hm) as H.
  cbv zeta in H. eexists. split; [exact H|]. clear H.
  fold num.
  set (line := line_after_strtok tokdelim (c_str l)).
  set (popc := CommandType_eqb (cmdtype c) POP && Memory_eqb m CONSTANT).
  assert (Hpc : popc = true -> c = "pop" /\ m = CONSTANT).
  { unfold popc. destruct Hc' as [[-> ->]|[-> ->]]; [discriminate|].
    destruct m; try discriminate. now split. }
  pose proof (in_range_iff m num) as Hr. fold limit in Hr.
  rewrite stderr_append_node_diags, failure_append_node, toks_append_node.
  split.
  - intros Hin. apply Hr in Hin. rewrite Hin.
    split.
    + destruct popc, (sr_erange (strtoll w)), (parse_fails (errno s) w);
        read_new_diags; reflexivity.
    + intros Hs Hp Hk. rewrite Hp.
      destruct popc eqn:P; [destruct (Hpc eq_refl); tauto|].
      assert (Hnum : to_int num = num).
      { apply to_int_small. apply Hr in Hin. unfold limit in Hin.
        destruct m; lia. }
      rewrite Hnum.
      destruct (sr_erange (strtoll w));
        cbn [failure toks set_failure report set_errno negb orb];
        rewrite Hs; cbn [orb]; split; reflexivity.
  - intros Hout.
    assert (Hin : in_range m num = false)
      by (destruct (in_range m num); [exfalso; apply Hout, Hr|]; reflexivity).
    rewrite Hin.
    split; [|split].
    + destruct popc, (sr_erange (strtoll w)), (parse_fails (errno s) w);
        read_new_diags;
        unfold range_diag; destruct (Memory_eqb m TEMP); reflexivity.
    + cbn [failure set_failure negb]. apply orb_true_r.
    + cbn [failure set_failure negb]. rewrite orb_true_r.
      destruct popc, (sr_erange (strtoll w)), (parse_fails (errno s) w);
        reflexivity.
Qed.

Lemma C2_operand_range_witness :
  (exists s', scan_line flags (start 0) "push constant 32767" = Some s'
              /\ failure s' = false
              /\ toks s' = [mkTokenList PUSH 2
                              [Some (A_mem CONSTANT); Some (A_num 32767)]])
  /\ (exists s', scan_line flags (start 0) "pop temp 7" = Some s'
                 /\ failure s' = false
                 /\ toks s' = [mkTokenList POP 2
                                 [Some (A_mem TEMP); Some (A_num 7)]])
  /\ (exists s', scan_line flags (start 0) "push constant 32768" = Some s'
                 /\ filter is_range_diag (new_diags (start 0) s')
                    = [ConstantOutOfRange 32768]
                 /\ failure s' = true /\ toks s' = [])
  /\ (exists s', scan_line flags (start 0) "pop temp 8" = Some s'
                 /\ filter is_range_diag (new_diags (start 0) s')
                    = [TempOutOfRange 8]
                 /\ failure s' = true /\ toks s' = []).
Proof.
  assert (Hpush : cmd_val flags PUSH <> 0) by discriminate.
  assert (Hpop : cmd_val flags POP <> 0) by discriminate.
  repeat split.
  - destruct (C2_operand_range flags Hpush Hpop (start 0)
                "push constant 32767" "push" "constant" "32767" CONSTANT []
                (or_introl eq_refl) eq_refl eq_refl) as (s' & Hs & Hin & _).
    exists s'. split; [exact Hs|].
    destruct Hin as [_ Hin]; [split; vm_compute; discriminate|].
    apply Hin; [reflexivity|reflexivity|discriminate].
  - destruct (C2_operand_range flags Hpush Hpop (start 0)
                "pop temp 7" "pop" "temp" "7" TEMP []
                (or_intror eq_refl) eq_refl eq_refl) as (s' & Hs & Hin & _).
    exists s'. split; [exact Hs|].
    destruct Hin as [_ Hin]; [split; vm_compute; discriminate|].
    apply Hin; [reflexivity|reflexivity|discriminate].
  - destruct (C2_operand_range flags Hpush Hpop (start 0)
                "push constant 32768" "push" "constant" "32768" CONSTANT []
                (or_introl eq_refl) eq_refl eq_refl) as (s' & Hs & _ & Hout).
    exists s'. split; [exact Hs|].
    apply Hout. intros [_ H]. vm_compute in H. now apply H.
  - destruct (C2_operand_range flags Hpush Hpop (start 0)
                "pop temp 8" "pop" "temp" "8" TEMP []
                (or_intror eq_refl) eq_refl eq_refl) as (s' & Hs & _ & Hout).
    exists s'. split; [exact Hs|].
    apply Hout. intros [_ H]. vm_compute in H. now apply H.
Defined.

(** ** The operand of function and call *)

Section NoRangeCheck.

Variable impl : Impl.







End NoRangeCheck.


(** With enumerators numbered from 0 the test [cmdt & (POP | PUSH)] is
    not zero for [FUNCTION] (7 & 3), and the operand of a [function] line
    is range-checked. *)
Remark ordinal_enumerators_range_check_function :
  pop_or_push ordinal FUNCTION = true
  /\ scan_line ordinal (start 0) "function f 40000"
     = Some (mkScan [] true 0 [ConstantOutOfRange 40000]).
Proof. split; reflexivity. Qed.

(** ** The instruction of a return line *)

(** C7, at the line [return].  The entry of [RETURN] in [cmd_fmt] is
    [{ 0 }]: its first slot reads as [ARG_NONE], so [argc] is
    [nargs - 1 = -1], not 0, and that is the count stored in the linked
    node.  The request for [argv], of the size that -1 wraps to, is
    refused: the node has a null [argv] and [errno] is left at
    [ENOMEM]. *)
Theorem C7_return_argc (impl : Impl) (s : Scan) (l : string)
    (rest : list string) :
  tokens (c_str l) = "return" :: rest ->
  failure s = false ->
  scan_line impl s l
  = Some (mkScan (toks s ++ [mkTokenList RETURN (-1) []])
                 false ENOMEM (stderr s)).
Proof.
  intros Ht Hs. rewrite scan_line_words, Ht. unfold scan_words.
  change (cmdtype "return") with RETURN. cbn [CommandType_eqb].
  change (first_cells (cmd_fmt RETURN) "return") with (0, -1, @nil Cell).
  rewrite allocated_cmd.
  cbv beta iota.
  change (Z.to_nat (nargs (cmd_fmt RETURN) - 1)) with O.
  cbn [for_words]. unfold append_node. cbn [failure set_errno]. now rewrite Hs.
Qed.

Lemma C7_return_argc_witness :
  scan_line flags (start 0) "return"
  = Some (mkScan [mkTokenList RETURN (-1) []] false 12 []).
Proof.
  exact (C7_return_argc flags (start 0) "return" [] eq_refl eq_refl).
Defined.

(** ** The number word *)

Lemma read_digits_app (ds g : string) :
  all_digits ds = true -> no_digit_ahead g = true ->
  forall acc,
    read_digits (ds ++ g)%string acc
    = (fold_left (fun a c => 10 * a + (char_code c - 48))
                 (list_ascii_of_string ds) acc,
       String.length ds).
Proof.
  intros Hd Hg. induction ds as [|c t IH]; intros acc; simpl.
  - destruct g as [|c g']; [reflexivity|]. simpl in *.
    now destruct (isdigit c).
  - simpl in Hd. apply andb_true_iff in Hd as [Hc Ht].
    rewrite Hc, (IH Ht). reflexivity.
Qed.

Lemma isdigit_not_space (c : ascii) : isdigit c = true -> isspace c = false.
Proof.
  unfold isdigit, isspace. intros H.
  apply andb_true_iff in H as [H1 H2]. apply Z.leb_le in H1, H2.
  apply orb_false_iff. split; [apply Z.eqb_neq; lia|].
  apply andb_false_iff. right. apply Z.leb_gt. lia.
Qed.

Lemma isdigit_not_sign (c : ascii) :
  isdigit c = true -> (c =? "-")%char = false /\ (c =? "+")%char = false.
Proof.
  intros H. split; apply Ascii.eqb_neq; intros ->; discriminate.
Qed.

Lemma fold_digits_nonneg (ds : string) :
  all_digits ds = true ->
  forall acc, 0 <= acc ->
    0 <= fold_left (fun a c => 10 * a + (char_code c - 48))
                   (list_ascii_of_string ds) acc.
Proof.
  induction ds as [|c t IH]; intros Hall acc Hacc;
    cbn [list_ascii_of_string fold_left]; [exact Hacc|].
  cbn [all_digits] in Hall. apply andb_true_iff in Hall as [Hc Ht].
  unfold isdigit in Hc. apply andb_true_iff in Hc as [H1 H2].
  apply Z.leb_le in H1. apply IH; [exact Ht|lia].
Qed.

Lemma dec_value_nonneg (ds : string) :
  all_digits ds = true -> 0 <= dec_value ds.
Proof. intros H. apply fold_digits_nonneg; [exact H|lia]. Qed.

(** [strtoll] on digits followed by something that is no digit. *)
Lemma strtoll_digits (ds g : string) :
  ds <> EmptyString -> all_digits ds = true -> no_digit_ahead g = true ->
  dec_value ds <= LLONG_MAX ->
  strtoll (ds ++ g)%string = mkStrtoll (dec_value ds) (String.length ds) false.
Proof.
  intros Hne Hd Hg Hmax. unfold strtoll.
  destruct ds as [|c t]; [contradiction|].
  simpl in Hd. apply andb_true_iff in Hd as [Hc Ht].
  change (String c t ++ g)%string with (String c (t ++ g)%string).
  cbn [skip_spaces]. rewrite (isdigit_not_space c Hc).
  destruct (isdigit_not_sign c Hc) as [-> ->].
  change (String c (t ++ g)%string) with (String c t ++ g)%string.
  rewrite read_digits_app by (simpl; rewrite ?Hc; trivial).
  fold (dec_value (String c t)). cbn [String.length Nat.add].
  assert (H0 : 0 <= dec_value (String c t))
    by (apply dec_value_nonneg; simpl; now rewrite Hc).
  assert (G : (dec_value (String c t) >? LLONG_MAX) = false)
    by (rewrite Z.gtb_ltb; apply Z.ltb_ge; exact Hmax).
  assert (L : (dec_value (String c t) <? LLONG_MIN) = false)
    by (apply Z.ltb_ge; unfold LLONG_MIN; lia).
  now rewrite G, L.
Qed.

Section NumberWord.

Variable impl : Impl.

(** The messages and the stored value of [case ARG_NUM], [errno] not
    being [ERANGE] beforehand. *)
Lemma scan_num_parse cmdt line argn w argv s :
  errno s <> ERANGE ->
  filter is_parse_diag
    (new_diags s (snd (scan_num impl cmdt line argn w argv s)))
  = (if Nat.eqb (sr_end (strtoll w)) O || sr_erange (strtoll w)
     then [FailedToReadNumber w line] else [])
  /\ fst (scan_num impl cmdt line argn w argv s)
     = store argv argn (A_num (to_int (sr_value (strtoll w)))).
Proof.
  intros He. apply Z.eqb_neq in He. unfold scan_num.
  generalize (sr_value (strtoll w)); intros num.
  generalize (Nat.eqb (sr_end (strtoll w)) O); intros bend.
  generalize (is_mem TEMP (read_mem impl argv (argn - 1))); intros bt.
  generalize ((num <? 0) || (num >? 7)), ((num <? 0) || (num >? 32767)).
  intros b7 b32767.
  destruct (sr_erange (strtoll w)); cbn [errno set_errno]; rewrite ?He;
    change (ERANGE =? ERANGE) with true;
    destruct bend, (pop_or_push impl cmdt), bt, b7, b32767;
    cbn [orb fst snd]; (split; [read_new_diags|]; reflexivity).
Qed.

(** C10, as amended.  When [errno] is not already [ERANGE], the
    number-parse message is printed for a word exactly when [strtoll]
    converts nothing or reports overflow; the value stored in the slot is
    the returned number converted to [int].  In particular a word that
    starts with decimal digits denoting at most [LLONG_MAX], whatever
    follows them, gets no number-parse message and stores that number,
    unchanged when it is below 2^31. *)
Theorem C10_number_word cmdt line argn w argv s :
  errno s <> ERANGE ->
  let r := scan_num impl cmdt line argn w argv s in
  (filter is_parse_diag (new_diags s (snd r)) = [FailedToReadNumber w line]
   <-> sr_end (strtoll w) = O \/ sr_erange (strtoll w) = true)
  /\ (filter is_parse_diag (new_diags s (snd r)) = []
      <-> ~ (sr_end (strtoll w) = O \/ sr_erange (strtoll w) = true))
  /\ fst r = store argv argn (A_num (to_int (sr_value (strtoll w))))
  /\ forall ds g,
       w = (ds ++ g)%string -> ds <> EmptyString ->
       all_digits ds = true -> no_digit_ahead g = true ->
       dec_value ds <= LLONG_MAX ->
       filter is_parse_diag (new_diags s (snd r)) = []
       /\ fst r = store argv argn (A_num (to_int (dec_value ds)))
       /\ (dec_value ds < 2 ^ 31 -> to_int (dec_value ds) = dec_value ds).
Proof.
  intros He r.
  destruct (scan_num_parse cmdt line argn w argv s He) as [Hd Hv].
  fold r in Hd, Hv.
  assert (Hb : Nat.eqb (sr_end (strtoll w)) O || sr_erange (strtoll w) = true
               <-> sr_end (strtoll w) = O \/ sr_erange (strtoll w) = true)
    by (rewrite orb_true_iff, Nat.eqb_eq; tauto).
  repeat split.
  - intros H. apply Hb. rewrite Hd in H.
    destruct (_ || _); [reflexivity|discriminate].
  - intros H. apply Hb in H. now rewrite Hd, H.
  - intros H. rewrite <- Hb. rewrite Hd in H.
    destruct (_ || _); [discriminate|]. discriminate.
  - intros H. rewrite Hd. destruct (_ || _); [|reflexivity].
    exfalso. apply H, Hb. reflexivity.
  - exact Hv.
  - subst w. rewrite Hd, (strtoll_digits ds g) by assumption.
    cbn [sr_end sr_erange]. destruct ds; [contradiction|reflexivity].
  - subst w. rewrite Hv, (strtoll_digits ds g) by assumption. reflexivity.
  - intros Hlt. apply to_int_small.
    pose proof (dec_value_nonneg ds H1). lia.
Qed.

End NumberWord.

Lemma C10_number_word_witness :
  (filter is_parse_diag
     (new_diags (start 0)
        (snd (scan_num flags FUNCTION "function" 1 "12abc"
                [Some (A_name (strcpy 1 "f")); None] (start 0)))) = []
   /\ fst (scan_num flags FUNCTION "function" 1 "12abc"
             [Some (A_name (strcpy 1 "f")); None] (start 0))
      = [Some (A_name (strcpy 1 "f")); Some (A_num 12)])
  /\ (filter is_parse_diag
        (new_diags (start 0)
           (snd (scan_num flags FUNCTION "function" 1 "abc"
                   [Some (A_name (strcpy 1 "f")); None] (start 0))))
      = [FailedToReadNumber "abc" "function"]).
Proof.
  assert (He : errno (start 0) <> ERANGE) by discriminate.
  split.
  - destruct (C10_number_word flags FUNCTION "function" 1 "12abc"
                [Some (A_name (strcpy 1 "f")); None] (start 0) He) as (_ & _ & _ & H).
    destruct (H "12" "abc" eq_refl) as (Hd & Hv & _);
      [discriminate|reflexivity|reflexivity|vm_compute; discriminate|].
    split; [exact Hd|exact Hv].
  - destruct (C10_number_word flags FUNCTION "function" 1 "abc"
                [Some (A_name (strcpy 1 "f")); None] (start 0) He) as (H & _).
    apply H. now left.
Defined.

(** C10 as stated fails on the stored value: the word [4294967297x] is
    accepted without a number-parse message, and the number stored for it
    is 1, the leading integer 4294967297 converted to [int]. *)
Lemma C10_stored_value_is_truncated :
  sr_value (strtoll "4294967297x") = 4294967297
  /\ scan_line flags (start 0) "function f 4294967297x"
     = Some (mkScan [mkTokenList FUNCTION 2
                       [Some (A_name (strcpy 1 "f")); Some (A_num 1)]]
                    false 0 []).
Proof. split; reflexivity. Qed.

(** [errno] is never cleared: after an overflow on one line the
    number-parse message is printed for every later number. *)
Remark stale_errno_fails_later_numbers :
  scan_lines flags (start 0)
    ["push constant 99999999999999999999"; "push constant 5"]
  = Some (mkScan [] true ERANGE
            [FailedToReadNumber "99999999999999999999" "push";
             ConstantOutOfRange LLONG_MAX;
             FailedToReadNumber "5" "push"]).
Proof. reflexivity. Qed.

(** ** The failure flag and the messages *)

Section Verdict.

Variable impl : Impl.

Lemma consistent_set_failure (d : Diag) (s : Scan) :
  is_failure_diag d = true -> consistent (set_failure true (report d s)).
Proof.
  intros Hd. unfold consistent. simpl.
  rewrite existsb_app. simpl. rewrite Hd. now rewrite orb_true_r.
Qed.

Lemma consistent_range (d : Diag) (s : Scan) :
  is_failure_diag d = true ->
  consistent (set_failure (failure (report d s) || true) (report d s)).
Proof.
  intros Hd. unfold consistent. simpl.
  rewrite existsb_app. simpl. rewrite Hd. now rewrite !orb_true_r.
Qed.

Lemma consistent_keep (s : Scan) :
  consistent s -> consistent (set_failure (failure s || false) s).
Proof. unfold consistent. simpl. now rewrite orb_false_r. Qed.

Lemma consistent_set_errno (e : Z) (s : Scan) :
  consistent s -> consistent (set_errno e s).
Proof. trivial. Qed.

Lemma scan_arg_consistent cmdt line kind argn w argv s :
  consistent s ->
  consistent (snd (scan_arg impl cmdt line kind argn w argv s)).
Proof.
  intros Hs. destruct kind; unfold scan_arg; trivial.
  - unfold scan_memory.
    destruct (lookup memory w), (CommandType_eqb cmdt POP && _);
      cbn [snd negb]; trivial;
      repeat (apply consistent_set_failure; [reflexivity|]); trivial;
      now apply consistent_set_failure.
  - unfold scan_num.
    assert (H1 : consistent (if sr_erange (strtoll w)
                             then set_errno ERANGE s else s))
      by (destruct (sr_erange (strtoll w)); trivial).
    set (s1 := if sr_erange (strtoll w) then set_errno ERANGE s else s) in *.
    assert (H2 : consistent
                   (if (errno s1 =? ERANGE) || Nat.eqb (sr_end (strtoll w)) O
                    then set_failure true
                           (report (FailedToReadNumber w line) s1)
                    else s1))
      by (destruct (_ || _); trivial; now apply consistent_set_failure).
    set (s2 := if (errno s1 =? ERANGE) || _ then _ else s1) in *.
    destruct (pop_or_push impl cmdt);
      [destruct (is_mem TEMP _); destruct ((_ <? 0) || _)|];
      cbn [snd];
      first [now apply consistent_range | now apply consistent_keep].
Qed.

Lemma for_words_consistent n cmdt fmt line :
  forall i argn ws argv s,
    consistent s ->
    consistent (snd (for_words impl n cmdt fmt line i argn ws argv s)).
Proof.
  induction n as [|n IH]; intros; simpl; trivial.
  destruct ws as [|w ws].
  - apply IH. now apply consistent_set_failure.
  - pose proof (scan_arg_consistent cmdt line (fmt_arg fmt i) argn w argv s H)
      as Hs.
    destruct (scan_arg impl cmdt line (fmt_arg fmt i) argn w argv s).
    now apply IH.
Qed.

Lemma scan_line_consistent (s s' : Scan) (l : string) :
  scan_line impl s l = Some s' -> consistent s -> consistent s'.
Proof.
  rewrite scan_line_words. unfold scan_words.
  destruct (tokens (c_str l)) as [|w rest]; [discriminate|].
  destruct (CommandType_eqb (cmdtype w) NONE).
  - intros H Hs; inversion H; subst. unfold consistent in *. simpl.
    rewrite existsb_app. simpl. now rewrite !orb_false_r.
  - destruct (first_cells (cmd_fmt (cmdtype w)) w) as [[argn n] argv].
    intros H Hs.
    assert (Ha : consistent (allocated (cmd_fmt (cmdtype w)) s)).
    { unfold consistent in *.
      destruct (allocated_fields (cmd_fmt (cmdtype w)) s) as (_ & -> & ->).
      exact Hs. }
    pose proof (for_words_consistent
                  (Z.to_nat (nargs (cmd_fmt (cmdtype w)) - 1)) (cmdtype w)
                  (cmd_fmt (cmdtype w))
                  (line_after_strtok tokdelim (c_str l)) 1 argn rest argv _ Ha)
      as Hc.
    destruct (for_words impl _ _ _ _ _ _ _ _ (allocated _ s)) as [argv' s2].
    inversion H; subst. unfold consistent in *.
    now rewrite failure_append_node, stderr_append_node.
Qed.

Lemma scan_lines_consistent (ls : list string) :
  forall s s', scan_lines impl s ls = Some s' -> consistent s -> consistent s'.
Proof.
  induction ls as [|l ls IH]; intros s s' H Hs; simpl in H.
  - now inversion H; subst.
  - destruct (scan_line impl s l) as [s1|] eqn:E; [|discriminate].
    eapply IH; [exact H|]. eapply scan_line_consistent; eauto.
Qed.

(** [stderr] only grows. *)
Lemma scan_line_stderr_grow (s s' : Scan) (l : string) :
  scan_line impl s l = Some s' -> exists ds, stderr s' = stderr s ++ ds.
Proof.
  rewrite scan_line_join.
  destruct (scan_line impl (clean s) l) as [d|]; [|discriminate].
  intros H; inversion H; subst. now exists (stderr d).
Qed.

Lemma scan_lines_stderr_grow (ls : list string) :
  forall s s', scan_lines impl s ls = Some s' ->
               exists ds, stderr s' = stderr s ++ ds.
Proof.
  induction ls as [|l ls IH]; intros s s' H; simpl in H.
  - inversion H; subst. exists []. now rewrite app_nil_r.
  - destruct (scan_line impl s l) as [s1|] eqn:E; [|discriminate].
    destruct (scan_line_stderr_grow _ _ _ E) as [d1 H1].
    destruct (IH _ _ H) as [d2 H2].
    exists (d1 ++ d2). now rewrite H2, H1, app_assoc.
Qed.

(** The loop of [scan_stream] on a stream whose lines are [ls]. *)
Lemma scan_while_lines (fuel : nat) :
  forall fp ls s,
    read_lines fuel fp = Some ls ->
    scan_while impl fuel fp s = Some (scan_lines impl s ls).
Proof.
  induction fuel as [|k IH]; intros fp ls s H; simpl in *; [discriminate|].
  destruct (nextline k fp) as [[[line|] fp']|]; [| |discriminate].
  - destruct (read_lines k fp') as [ls'|] eqn:E; [|discriminate].
    inversion H; subst. simpl.
    destruct (scan_line impl s line) as [s1|]; [|reflexivity].
    now apply IH.
  - now inversion H; subst.
Qed.

(** When the stream has been read to its end and each of its lines had
    a command word, [scan_stream] calls [exit(1)] if one of the messages
    for a missing argument, an invalid segment, a write to constant, a
    number that does not parse or a number out of range was printed for
    any of its lines, and returns the list otherwise. *)
Theorem exit_iff_failure_message (e : Z) (ls : list string) (s : Scan) :
  scan_lines impl (start e) ls = Some s ->
  (existsb is_failure_diag (stderr s) = true ->
   finish (Some s) = Exit 1 (stderr s ++ [FailedToCompile]))
  /\ (existsb is_failure_diag (stderr s) = false ->
      finish (Some s) = Return (toks s) (stderr s))
  /\ (forall pre post s1,
        ls = pre ++ post -> scan_lines impl (start e) pre = Some s1 ->
        existsb is_failure_diag (stderr s1) = true ->
        existsb is_failure_diag (stderr s) = true)
  /\ (forall fuel fp,
        read_lines fuel fp = Some ls ->
        scan_stream impl fuel e fp = Some (finish (Some s)))
  /\ (forall text,
        comments_closed text = true -> logical_lines text = ls ->
        forall k, (String.length text + 3 <= k)%nat ->
          scan_stream impl k e (fopen text) = Some (finish (Some s))).
Proof.
  intros H.
  assert (Hc : consistent s)
    by (eapply scan_lines_consistent; [exact H|reflexivity]).
  unfold consistent in Hc. unfold finish.
  repeat split.
  - intros Hf. now rewrite Hc, Hf.
  - intros Hf. now rewrite Hc, Hf.
  - intros pre post s1 -> H1 Hf.
    rewrite scan_lines_app, H1 in H.
    destruct (scan_lines_stderr_grow _ _ _ H) as [ds Hd].
    rewrite Hd, existsb_app, Hf. reflexivity.
  - intros fuel fp Hr. unfold scan_stream.
    now rewrite (scan_while_lines fuel fp ls (start e) Hr), H.
  - intros text Ht Hl k Hk. unfold scan_stream.
    rewrite (scan_while_lines k (fopen text) ls (start e)), H; trivial.
    rewrite <- Hl. now apply read_lines_text.
Qed.

End Verdict.

Lemma exit_iff_failure_message_witness :
  read_lines 40 (fopen ("push constant 1" ++ nl ++ "pop" ++ nl ++ "add" ++ nl)%string)
  = Some ["push constant 1"; "pop"; "add"]
  /\ scan_stream flags 40 0
       (fopen ("push constant 1" ++ nl ++ "pop" ++ nl ++ "add" ++ nl)%string)
     = Some (Exit 1 [MissingToken "pop"; MissingToken "pop"; FailedToCompile])
  /\ scan_stream flags 40 0 (fopen ("push constant 1" ++ nl ++ "add" ++ nl)%string)
     = Some (Return [mkTokenList PUSH 2 [Some (A_mem CONSTANT); Some (A_num 1)];
                     mkTokenList ARITHMETIC 1 [Some (A_op ADD)]] []).
Proof.
  split; [reflexivity|]. split.
  - destruct (exit_iff_failure_message flags 0 ["push constant 1"; "pop"; "add"]
                (mkScan [mkTokenList PUSH 2
                           [Some (A_mem CONSTANT); Some (A_num 1)]]
                        true 0 [MissingToken "pop"; MissingToken "pop"])
                eq_refl) as (Hx & _ & _ & Hs & _).
    rewrite (Hs 40%nat
               (fopen ("push constant 1" ++ nl ++ "pop" ++ nl ++ "add" ++ nl)%string)
               eq_refl).
    rewrite (Hx eq_refl). reflexivity.
  - destruct (exit_iff_failure_message flags 0 ["push constant 1"; "add"]
                (mkScan [mkTokenList PUSH 2
                           [Some (A_mem CONSTANT); Some (A_num 1)];
                         mkTokenList ARITHMETIC 1 [Some (A_op ADD)]]
                        false 0 [])
                eq_refl) as (_ & Hr & _ & Hs & _).
    rewrite (Hs 40%nat
               (fopen ("push constant 1" ++ nl ++ "add" ++ nl)%string) eq_refl).
    rewrite (Hr eq_refl). reflexivity.
Defined.

(** ** Unknown commands *)

Section Unknown.

Variable impl : Impl.

Lemma set_failure_same (s : Scan) : set_failure (failure s || false) s = s.
Proof. destruct s. unfold set_failure. simpl. now rewrite orb_false_r. Qed.

(** A slot that leaves [failure] unset changes nothing in the state. *)
Lemma scan_arg_quiet cmdt line kind argn w argv s :
  failure (snd (scan_arg impl cmdt line kind argn w argv s)) = false ->
  snd (scan_arg impl cmdt line kind argn w argv s) = s.
Proof.
  destruct kind; unfold scan_arg; trivial.
  - unfold scan_memory.
    destruct (lookup memory w), (CommandType_eqb cmdt POP && _);
      cbn [snd negb failure set_failure]; trivial; discriminate.
  - unfold scan_num.
    destruct (sr_erange (strtoll w)); cbn [errno set_errno];
      change (ERANGE =? ERANGE) with true; cbn [orb];
      destruct (pop_or_push impl cmdt);
      try destruct (is_mem TEMP _); try destruct ((_ <? 0) || (_ >? _));
      try destruct ((errno s =? ERANGE) || _);
      cbn [snd failure set_failure report orb]; try discriminate;
      rewrite ?orb_true_r; try discriminate;
      intros _; apply set_failure_same.
Qed.

Lemma for_words_quiet n cmdt fmt line :
  forall i argn ws argv s,
    failure (snd (for_words impl n cmdt fmt line i argn ws argv s)) = false ->
    snd (for_words impl n cmdt fmt line i argn ws argv s) = s.
Proof.
  induction n as [|n IH]; intros i argn ws argv s H; simpl in *; trivial.
  destruct ws as [|w ws].
  - rewrite for_words_failure in H. simpl in H. discriminate.
  - pose proof (scan_arg_quiet cmdt line (fmt_arg fmt i) argn w argv s) as Hq.
    destruct (scan_arg impl cmdt line (fmt_arg fmt i) argn w argv s)
      as [argv' s1].
    simpl in Hq. pose proof (IH _ _ _ _ _ H) as E. rewrite E in *.
    now apply Hq.
Qed.



(** A valid line, scanned on its own, prints nothing; it leaves
    [errno] as it was, or at [ENOMEM] (the line [return]). *)
Lemma line_instr_scan (e : Z) (l : string) (t : TokenList) :
  line_instr impl e l = Some t ->
  (exists e', scan_line impl (start e) l = Some (mkScan [t] false e' [])
              /\ (e' = e \/ e' = ENOMEM))
  /\ unknown_word l = None.
Proof.
  intros H. apply line_instr_inv in H as (d & Hd & Hf & Ht).
  unfold unknown_word. revert Hd. unfold scan_line.
  destruct (strtok (c_str l) tokdelim) as [[w|] save]; [|discriminate].
  destruct (CommandType_eqb (cmdtype w) NONE).
  - intros Hd; inversion Hd; subst. discriminate.
  - rewrite first_slot_split.
    destruct (first_cells (cmd_fmt (cmdtype w)) w) as [[argn n] argv].
    rewrite for_args_words.
    pose proof (for_words_quiet (Z.to_nat (nargs (cmd_fmt (cmdtype w)) - 1))
                  (cmdtype w) (cmd_fmt (cmdtype w))
                  (line_after_strtok tokdelim (c_str l)) 1 argn (tokens save)
                  argv (allocated (cmd_fmt (cmdtype w)) (start e))) as Hq.
    destruct (for_words impl _ _ _ _ _ _ _ _ (allocated _ (start e)))
      as [argv' s2].
    cbn [snd] in Hq. intros Hd; inversion Hd; subst d.
    rewrite failure_append_node in Hf. rewrite (Hq Hf) in *.
    split; [|reflexivity].
    exists (errno (allocated (cmd_fmt (cmdtype w)) (start e))).
    split; [|rewrite allocated_cmd; destruct (cmdtype w); auto].
    f_equal. revert Ht. unfold append_node.
    destruct (allocated_fields (cmd_fmt (cmdtype w)) (start e))
      as (Et & Ef & Ee).
    rewrite Ef, Et, Ee. cbn. intros Ht. now inversion Ht.
Qed.



End Unknown.


(** ** Teardown *)

Lemma free_keeps (p q : Teardown.ptr) (h h' : Teardown.heap) :
  Teardown.free p h = Some h' -> In q h -> q <> p -> In q h'.
Proof.
  unfold Teardown.free.
  destruct (Nat.eqb p 0); [now intros H; inversion H; subst|].
  destruct (existsb (Nat.eqb p) h); [|discriminate].
  intros H Hq Hne; inversion H; subst. now apply in_in_remove.
Qed.

Lemma free_live (p : Teardown.ptr) (pre post : Teardown.heap) :
  p <> O -> NoDup (pre ++ p :: post) ->
  Teardown.free p (pre ++ p :: post) = Some (pre ++ post).
Proof.
  intros Hp Hn. unfold Teardown.free.
  apply Nat.eqb_neq in Hp. rewrite Hp.
  rewrite existsb_app. cbn [existsb]. rewrite Nat.eqb_refl, orb_true_r.
  apply NoDup_remove in Hn as [_ Hn]. f_equal.
  rewrite remove_app, remove_cons.
  rewrite !notin_remove; trivial; intros H; apply Hn, in_or_app; tauto.
Qed.

(** What [free_token_list] does release: the array and the node of every
    element, each once; what is left of the blocks of the list are the
    blocks of the names. *)
Lemma teardown_frees_nodes_and_arrays (tl : list Teardown.Node) :
  forall pre,
    NoDup (pre ++ Teardown.blocks tl) ->
    (forall n, In n tl -> Teardown.self n <> O) ->
    Teardown.free_token_list tl (pre ++ Teardown.blocks tl)
    = Some (pre ++ Teardown.owned_names tl).
Proof.
  induction tl as [|n rest IH]; intros pre Hn Hs; [reflexivity|].
  assert (Hrest : forall h,
             match rest with
             | [] => Some h
             | _ :: _ => Teardown.free_token_list rest h
             end = Teardown.free_token_list rest h)
    by (intros h; now destruct rest).
  cbn [Teardown.free_token_list].
  unfold Teardown.blocks, Teardown.owned_names in *.
  cbn [flat_map] in *.
  set (B := flat_map Teardown.node_blocks rest) in *.
  set (N := flat_map Teardown.name_blks rest) in *.
  unfold Teardown.node_blocks in *.
  assert (Hself : Teardown.self n <> O) by (apply Hs; now left).
  assert (Hs' : forall m, In m rest -> Teardown.self m <> O)
    by (intros m Hm; apply Hs; now right).
  assert (Hstep :
    exists h1, Teardown.free (Teardown.argv_blk n)
                 (pre ++ ((if Nat.eqb (Teardown.argv_blk n) 0 then []
                           else [Teardown.argv_blk n])
                          ++ Teardown.name_blks n ++ [Teardown.self n])
                      ++ B)
               = Some h1
               /\ h1 = (pre ++ Teardown.name_blks n) ++ Teardown.self n :: B
               /\ NoDup h1).
  { destruct (Nat.eqb (Teardown.argv_blk n) 0) eqn:E.
    - eexists. split; [unfold Teardown.free; rewrite E; reflexivity|].
      cbn [app] in *. rewrite <- !app_assoc in *. cbn [app] in *.
      split; [reflexivity|exact Hn].
    - cbn [app] in *. rewrite <- !app_assoc in *. cbn [app] in *.
      eexists. split; [apply free_live; [now apply Nat.eqb_neq|exact Hn]|].
      split; [reflexivity|]. now apply NoDup_remove in Hn as [Hn _]. }
  destruct Hstep as (h1 & -> & -> & Hn1).
  rewrite (free_live _ _ _ Hself Hn1), Hrest.
  apply NoDup_remove in Hn1 as [Hn1 _].
  rewrite (IH _ Hn1 Hs'). now rewrite <- app_assoc.
Qed.

(** C9, at the name strings.  [free_token_list] frees the array [argv]
    and the node of every element of the list and nothing else: a block
    that is neither stays live, and so does every block allocated for a
    [name]. *)
Theorem C9_teardown_leaks_names (tl : list Teardown.Node) :
  forall (h h' : Teardown.heap),
    Teardown.free_token_list tl h = Some h' ->
    forall p, In p h ->
      ~ In p (flat_map (fun n => [Teardown.argv_blk n; Teardown.self n]) tl) ->
      In p h'.
Proof.
  induction tl as [|n rest IH]; intros h h' H p Hp Hn.
  - simpl in H. now inversion H; subst.
  - cbn [Teardown.free_token_list] in H.
    destruct (Teardown.free (Teardown.argv_blk n) h) as [h1|] eqn:E1;
      [|discriminate].
    destruct (Teardown.free (Teardown.self n) h1) as [h2|] eqn:E2;
      [|discriminate].
    simpl in Hn.
    assert (Hp2 : In p h2).
    { eapply free_keeps; [exact E2| |intros ->; apply Hn; right; now left].
      eapply free_keeps; [exact E1|exact Hp|intros ->; apply Hn; now left]. }
    destruct rest as [|n' rest'].
    + now inversion H; subst.
    + apply (IH h2 h' H p Hp2). intros Hin. apply Hn. right. now right.
Qed.

Lemma C9_teardown_leaks_names_witness :
  scan_stream flags 20 0 (fopen ("label L" ++ nl)%string)
  = Some (Return [mkTokenList LABEL 1 [Some (A_name (strcpy 1 "L"))]] [])
  /\ Teardown.place 1%nat [mkTokenList LABEL 1 [Some (A_name (strcpy 1 "L"))]]
     = [Teardown.mkNode 3%nat 1%nat [2%nat]]
  /\ Teardown.free_token_list [Teardown.mkNode 3%nat 1%nat [2%nat]]
       [1; 2; 3]%nat
     = Some [2%nat]
  /\ In 2%nat [2%nat].
Proof.
  repeat split.
  apply (C9_teardown_leaks_names [Teardown.mkNode 3%nat 1%nat [2%nat]]
           [1; 2; 3]%nat [2%nat] eq_refl 2%nat).
  - right. now left.
  - simpl. intros [H|[H|[]]]; discriminate.
Defined.

(** ** The shape of the linked instructions *)

Lemma cmdtype_arithmetic (w : string) :
  cmdtype w = ARITHMETIC -> exists op, lookup arithmetic w = Some op.
Proof.
  unfold cmdtype, command, arithmetic. cbn [fold_left lookup fst snd].
  repeat match goal with
         | |- context [if (w =? ?k)%string then _ else _] =>
             destruct (w =? k)%string;
             try (intros _; eexists; reflexivity);
             try discriminate
         end.
Qed.

Section Shape.

Variable impl : Impl.

Lemma fst_scan_num cmdt line argn w argv s :
  fst (scan_num impl cmdt line argn w argv s)
  = store argv argn (A_num (to_int (sr_value (strtoll w)))).
Proof.
  unfold scan_num.
  destruct (pop_or_push impl cmdt);
    [destruct (is_mem TEMP _); destruct ((_ <? 0) || _)|]; reflexivity.
Qed.

Lemma scan_memory_found cmdt argn w argv s :
  failure (snd (scan_memory impl cmdt argn w argv s)) = false ->
  exists m, fst (scan_memory impl cmdt argn w argv s)
            = store argv argn (A_mem m).
Proof.
  unfold scan_memory. destruct (lookup memory w) as [m|].
  - intros _. exists m. now destruct (CommandType_eqb cmdt POP && _).
  - destruct (CommandType_eqb cmdt POP && _); discriminate.
Qed.

Lemma for_words_missing n cmdt fmt line i argn argv s :
  failure (snd (for_words impl (S n) cmdt fmt line i argn [] argv s)) = true.
Proof. cbn [for_words]. rewrite for_words_failure. reflexivity. Qed.

(** The slots of a line that sets no failure: one word per slot, each
    scanned in the state the line started in. *)
Lemma one_slot cmdt fmt line rest argv s :
  failure (snd (for_words impl 1 cmdt fmt line 1 0 rest argv s)) = false ->
  exists a rest',
    rest = a :: rest'
    /\ fst (for_words impl 1 cmdt fmt line 1 0 rest argv s)
       = fst (scan_arg impl cmdt line (fmt_arg fmt 1) 0 a argv s)
    /\ failure (snd (scan_arg impl cmdt line (fmt_arg fmt 1) 0 a argv s))
       = false.
Proof.
  destruct rest as [|a rest']; [now rewrite for_words_missing|].
  rewrite for_words_cons. cbn [for_words]. intros H.
  exists a, rest'. now repeat split.
Qed.

Lemma two_slots cmdt fmt line rest argv s :
  failure (snd (for_words impl 2 cmdt fmt line 1 0 rest argv s)) = false ->
  exists a b rest',
    rest = a :: b :: rest'
    /\ failure (snd (scan_arg impl cmdt line (fmt_arg fmt 1) 0 a argv s))
       = false
    /\ fst (for_words impl 2 cmdt fmt line 1 0 rest argv s)
       = fst (scan_arg impl cmdt line (fmt_arg fmt (1 + 1)) (0 + 1) b
                (fst (scan_arg impl cmdt line (fmt_arg fmt 1) 0 a argv s)) s)
    /\ failure
         (snd (scan_arg impl cmdt line (fmt_arg fmt (1 + 1)) (0 + 1) b
                 (fst (scan_arg impl cmdt line (fmt_arg fmt 1) 0 a argv s)) s))
       = false.
Proof.
  destruct rest as [|a rest]; [now rewrite for_words_missing|].
  rewrite for_words_cons.
  destruct rest as [|b rest']; [now rewrite for_words_missing|].
  rewrite for_words_cons. cbn [for_words]. intros H.
  pose proof (scan_arg_quiet impl _ _ _ _ _ _ _ H) as Q2.
  assert (H1 : failure (snd (scan_arg impl cmdt line (fmt_arg fmt 1) 0 a
                               argv s)) = false)
    by (rewrite Q2 in H; exact H).
  pose proof (scan_arg_quiet impl _ _ _ _ _ _ _ H1) as Q1.
  rewrite Q1 in H.
  exists a, b, rest'. repeat split; trivial.
  now rewrite Q1.
Qed.

Lemma append_node_linked cmdt n argv s' t e :
  toks s' = [] ->
  append_node cmdt n argv s' = mkScan [t] false e [] ->
  failure s' = false /\ t = mkTokenList cmdt n argv.
Proof.
  unfold append_node. intros Ht H. destruct (failure s') eqn:F.
  - subst s'. discriminate.
  - rewrite Ht in H. now inversion H.
Qed.

Lemma two_slot_shape cmdt w rest line e e' t :
  cmdt = PUSH \/ cmdt = POP \/ cmdt = FUNCTION \/ cmdt = CALL ->
  (let '(argn, n, argv) := first_cells (cmd_fmt cmdt) w in
   let (argv', s') :=
     for_words impl (Z.to_nat (nargs (cmd_fmt cmdt) - 1)) cmdt (cmd_fmt cmdt)
               line 1 argn rest argv (allocated (cmd_fmt cmdt) (start e)) in
   Some (append_node cmdt n argv' s'))
  = Some (mkScan [t] false e' []) ->
  has_shape t.
Proof.
  intros Hc H.
  assert (Hf : first_cells (cmd_fmt cmdt) w = (0, 2, [@None CmdArg; None]))
    by (destruct Hc as [->|[->|[->| ->]]]; reflexivity).
  assert (Ha : forall x, allocated (cmd_fmt cmdt) x = x)
    by (intros x; destruct Hc as [->|[->|[->| ->]]]; reflexivity).
  assert (Hk : Z.to_nat (nargs (cmd_fmt cmdt) - 1) = 2%nat)
    by (destruct Hc as [->|[->|[->| ->]]]; reflexivity).
  rewrite Hf, Ha, Hk in H. cbv beta iota in H.
  pose proof (for_words_toks impl 2 cmdt (cmd_fmt cmdt) line 1 0 rest
                [None; None] (start e)) as Ht.
  pose proof (two_slots cmdt (cmd_fmt cmdt) line rest [None; None] (start e))
    as Hs.
  destruct (for_words impl 2 cmdt (cmd_fmt cmdt) line 1 0 rest
              [None; None] (start e)) as [argv' s'].
  cbn [fst snd] in *. inversion H as [Hn]. clear H.
  apply append_node_linked in Hn as [Hfl ->]; [|exact Ht].
  destruct (Hs Hfl) as (a & b & rest' & _ & F1 & -> & _).
  destruct Hc as [->|[->|[->| ->]]];
    change (fmt_arg (cmd_fmt _) (1 + 1)) with ARG_NUM;
    try change (fmt_arg (cmd_fmt _) 1) with ARG_MEMORY in *;
    try change (fmt_arg (cmd_fmt _) 1) with ARG_NAME in *;
    unfold scan_arg in *; rewrite fst_scan_num;
    try (apply scan_memory_found in F1 as [m ->]);
    split; reflexivity.
Qed.

Lemma one_slot_shape cmdt w rest line e e' t :
  cmdt = LABEL \/ cmdt = GOTO \/ cmdt = IF ->
  (let '(argn, n, argv) := first_cells (cmd_fmt cmdt) w in
   let (argv', s') :=
     for_words impl (Z.to_nat (nargs (cmd_fmt cmdt) - 1)) cmdt (cmd_fmt cmdt)
               line 1 argn rest argv (allocated (cmd_fmt cmdt) (start e)) in
   Some (append_node cmdt n argv' s'))
  = Some (mkScan [t] false e' []) ->
  has_shape t.
Proof.
  intros Hc H.
  assert (Hf : first_cells (cmd_fmt cmdt) w = (0, 1, [@None CmdArg]))
    by (destruct Hc as [->|[->| ->]]; reflexivity).
  assert (Ha : forall x, allocated (cmd_fmt cmdt) x = x)
    by (intros x; destruct Hc as [->|[->| ->]]; reflexivity).
  assert (Hk : Z.to_nat (nargs (cmd_fmt cmdt) - 1) = 1%nat)
    by (destruct Hc as [->|[->| ->]]; reflexivity).
  rewrite Hf, Ha, Hk in H. cbv beta iota in H.
  pose proof (for_words_toks impl 1 cmdt (cmd_fmt cmdt) line 1 0 rest
                [None] (start e)) as Ht.
  pose proof (one_slot cmdt (cmd_fmt cmdt) line rest [None] (start e)) as Hs.
  destruct (for_words impl 1 cmdt (cmd_fmt cmdt) line 1 0 rest
              [None] (start e)) as [argv' s'].
  cbn [fst snd] in *. inversion H as [Hn]. clear H.
  apply append_node_linked in Hn as [Hfl ->]; [|exact Ht].
  destruct (Hs Hfl) as (a & rest' & _ & -> & _).
  destruct Hc as [->|[->| ->]]; split; reflexivity.
Qed.

(** The instructions of the other commands have the shape of their
    command. *)
Lemma linked_instruction_shape (e : Z) (l : string) (t : TokenList) :
  line_instr impl e l = Some t -> cmd t <> RETURN -> has_shape t.
Proof.
  intros H Hr. apply line_instr_scan in H as [(e' & H & _) _].
  rewrite scan_line_words in H. unfold scan_words in H.
  destruct (tokens (c_str l)) as [|w rest]; [discriminate|].
  set (line := line_after_strtok tokdelim (c_str l)) in *.
  destruct (cmdtype w) eqn:C; cbn [CommandType_eqb] in H;
    try discriminate.
  - (* ARITHMETIC *)
    destruct (cmdtype_arithmetic w C) as [op Hop].
    change (first_cells (cmd_fmt ARITHMETIC) w)
      with (1, 1, match lookup arithmetic w with
                  | Some op => store [@None CmdArg] 0 (A_op op)
                  | None => [@None CmdArg]
                  end) in H.
    change (allocated (cmd_fmt ARITHMETIC) (start e)) with (start e) in H.
    rewrite Hop in H. cbn in H.
    inversion H; subst. split; reflexivity.
  - (* PUSH *)
    apply (two_slot_shape PUSH w rest line e e' t); [tauto|exact H].
  - (* POP *)
    apply (two_slot_shape POP w rest line e e' t); [tauto|exact H].
  - (* LABEL *)
    apply (one_slot_shape LABEL w rest line e e' t); [tauto|exact H].
  - (* GOTO *)
    apply (one_slot_shape GOTO w rest line e e' t); [tauto|exact H].
  - (* IF *)
    apply (one_slot_shape IF w rest line e e' t); [tauto|exact H].
  - (* FUNCTION *)
    apply (two_slot_shape FUNCTION w rest line e e' t); [tauto|exact H].
  - (* RETURN *)
    cbn in H. inversion H; subst. now contradiction Hr.
  - (* CALL *)
    apply (two_slot_shape CALL w rest line e e' t); [tauto|exact H].
Qed.

End Shape.

(** ** The tables *)

(** [cmdtype] keeps the last match of its loop; the keys of [command]
    being distinct, that is the entry a search with [break] finds, and
    [NONE] is returned exactly for the words that are no key. *)
Theorem cmdtype_lookup (w : string) :
  cmdtype w = match lookup command w with
              | Some c => c
              | None => NONE
              end
  /\ (cmdtype w = NONE <-> ~ In w (map fst command)).
Proof.
  unfold cmdtype, command. cbn [fold_left lookup fst snd map In].
  repeat match goal with
         | |- context [(w =? ?k)%string] =>
             destruct (String.eqb_spec w k) as [->|];
             [split; [reflexivity|];
              split; [discriminate|intros H; exfalso; apply H; tauto]|]
         end.
  split; [reflexivity|]. split; [|reflexivity].
  intros _ H. repeat (destruct H as [H|H]; [congruence|]). exact H.
Qed.

(** The nine spellings that [cmdtype] maps to [ARITHMETIC] are the keys of
    [arithmetic], so the first slot of an arithmetic instruction is always
    written; and two spellings never resolve to the same operation. *)
Theorem arithmetic_round_trip :
  (forall w, cmdtype w = ARITHMETIC
             <-> exists op, lookup arithmetic w = Some op)
  /\ (forall w1 w2 op,
        lookup arithmetic w1 = Some op -> lookup arithmetic w2 = Some op ->
        w1 = w2).
Proof.
  split.
  - intros w. split; [apply cmdtype_arithmetic|].
    intros [op H]. revert H. unfold cmdtype, command, arithmetic.
    cbn [fold_left lookup fst snd].
    repeat match goal with
           | |- context [(w =? ?k)%string] =>
               destruct (String.eqb_spec w k) as [->|];
               [try reflexivity; try discriminate|]
           end.
    discriminate.
  - intros w1 w2 op. unfold arithmetic. cbn [lookup].
    repeat match goal with
           | |- context [(w1 =? ?k)%string] =>
               destruct (String.eqb_spec w1 k) as [->|]
           end;
      try discriminate;
      (intros H; inversion H; subst; clear H;
       repeat match goal with
              | |- context [(w2 =? ?k)%string] =>
                  destruct (String.eqb_spec w2 k) as [->|]
              end; try discriminate; try reflexivity).
Qed.

Lemma arithmetic_round_trip_witness :
  cmdtype "neg" = ARITHMETIC /\ lookup arithmetic "neg" = Some NEG.
Proof.
  split; [|reflexivity].
  apply (proj1 arithmetic_round_trip "neg"). exists NEG. reflexivity.
Defined.

Lemma linked_instruction_shape_witness :
  line_instr flags 0 "push constant 1"
  = Some (mkTokenList PUSH 2 [Some (A_mem CONSTANT); Some (A_num 1)])
  /\ has_shape (mkTokenList PUSH 2 [Some (A_mem CONSTANT); Some (A_num 1)]).
Proof.
  split; [reflexivity|].
  apply (linked_instruction_shape flags 0 "push constant 1");
    [reflexivity|discriminate].
Defined.

(** ** The instructions of the list *)

Section ListInvariant.

Variable impl : Impl.

(** Every node of the list is the instruction of one of the lines. *)
Lemma scan_line_new_toks (P : TokenList -> Prop) (s s' : Scan) (l : string) :
  (forall e t, line_instr impl e l = Some t -> P t) ->
  scan_line impl s l = Some s' ->
  Forall P (toks s) -> Forall P (toks s').
Proof.
  intros HP H Hs. rewrite scan_line_join, clean_start in H.
  destruct (scan_line impl (start (errno s)) l) as [d|] eqn:E; [|discriminate].
  inversion H; subst. unfold join; simpl.
  destruct (failure s); [exact Hs|].
  apply Forall_app. split; [exact Hs|].
  destruct (toks d) as [|t r] eqn:T; [constructor|].
  assert (Hf : failure d = false).
  { destruct (failure d) eqn:F; [|reflexivity].
    rewrite (scan_line_local_toks impl _ _ _ E F) in T. discriminate. }
  assert (Ht : toks d = [t])
    by (apply (scan_line_local_one impl _ _ _ _ E); now rewrite T).
  rewrite T in Ht. inversion Ht; subst.
  constructor; [|constructor].
  apply (HP (errno s)). unfold line_instr. now rewrite E, Hf, T.
Qed.

Lemma scan_lines_new_toks (P : TokenList -> Prop) (ls : list string) :
  (forall e l t, line_instr impl e l = Some t -> P t) ->
  forall s s', scan_lines impl s ls = Some s' ->
               Forall P (toks s) -> Forall P (toks s').
Proof.
  intros HP. induction ls as [|l ls IH]; intros s s' H Hs; simpl in H.
  - now inversion H; subst.
  - destruct (scan_line impl s l) as [s1|] eqn:E; [|discriminate].
    apply (IH _ _ H). eapply scan_line_new_toks; eauto.
Qed.

Lemma scan_memory_resolved cmdt w s :
  failure (snd (scan_memory impl cmdt 0 w [None; None] s)) = false ->
  exists m, fst (scan_memory impl cmdt 0 w [None; None] s)
            = [Some (A_mem m); None]
            /\ (cmdt = POP -> m <> CONSTANT).
Proof.
  unfold scan_memory. destruct (lookup memory w) as [m|].
  - change (read_mem impl (store [None; None] 0 (A_mem m)) 0) with (Some m).
    destruct cmdt; cbn [CommandType_eqb andb negb fst snd];
      try (intros _; exists m; split; [reflexivity|discriminate]).
    unfold is_mem. destruct m; cbn [Memory_eqb fst snd failure set_failure];
      try discriminate;
      (intros _; eexists; split; [reflexivity|discriminate]).
  - destruct (CommandType_eqb cmdt POP && _); discriminate.
Qed.

Hypothesis push_nonzero : cmd_val impl PUSH <> 0.
Hypothesis pop_nonzero : cmd_val impl POP <> 0.

Lemma line_instr_push_pop_ok (e : Z) (l : string) (t : TokenList) :
  line_instr impl e l = Some t -> push_pop_ok t.
Proof.
  intros H Hc. apply line_instr_scan in H as [(e' & H & _) _].
  rewrite scan_line_words in H. unfold scan_words in H.
  destruct (tokens (c_str l)) as [|w rest]; [discriminate|].
  set (line := line_after_strtok tokdelim (c_str l)) in *.
  destruct (CommandType_eqb (cmdtype w) NONE); [now inversion H|].
  destruct (first_cells (cmd_fmt (cmdtype w)) w) as [[argn n] argv] eqn:Fs.
  pose proof (for_words_toks impl (Z.to_nat (nargs (cmd_fmt (cmdtype w)) - 1))
                (cmdtype w) (cmd_fmt (cmdtype w)) line 1 argn rest argv
                (allocated (cmd_fmt (cmdtype w)) (start e))) as Ht.
  rewrite (proj1 (allocated_fields _ _)) in Ht.
  destruct (for_words impl _ _ _ _ _ _ _ _ (allocated _ (start e)))
    as [argv' s'] eqn:Fw.
  cbn [snd] in Ht. inversion H as [Ha]. clear H.
  apply append_node_linked in Ha as [Hfl ->]; [|exact Ht].
  cbn [cmd t_argv] in *.
  assert (Hpp : cmdtype w = PUSH \/ cmdtype w = POP) by exact Hc.
  assert (Hal : allocated (cmd_fmt (cmdtype w)) (start e) = start e)
    by (destruct Hpp as [E|E]; rewrite E; reflexivity).
  rewrite Hal in Fw.
  assert (Hf : argn = 0 /\ argv = [None; None]
               /\ Z.to_nat (nargs (cmd_fmt (cmdtype w)) - 1) = 2%nat
               /\ fmt_arg (cmd_fmt (cmdtype w)) 1 = ARG_MEMORY
               /\ fmt_arg (cmd_fmt (cmdtype w)) (1 + 1) = ARG_NUM).
  { destruct Hpp as [E|E]; rewrite E in *; inversion Fs; now repeat split. }
  destruct Hf as (-> & -> & Hk & H1 & H2). rewrite Hk in Fw.
  pose proof (two_slots impl (cmdtype w) (cmd_fmt (cmdtype w)) line rest
                [None; None] (start e)) as Hs.
  rewrite Fw in Hs. cbn [fst snd] in Hs. specialize (Hs Hfl).
  destruct Hs as (a & b & rest' & _ & F1 & Hargv & F2). clear Fw.
  rewrite H1 in F1, Hargv, F2. rewrite H2 in Hargv, F2.
  unfold scan_arg in F1, Hargv, F2.
  apply scan_memory_resolved in F1 as (m & Em & Hm).
  rewrite Em in Hargv, F2. change (0 + 1) with 1 in Hargv, F2.
  rewrite (scan_num_push_pop impl push_nonzero pop_nonzero (cmdtype w) line b
             m (start e) Hpp) in Hargv, F2.
  cbn [fst snd failure set_failure] in Hargv, F2.
  apply orb_false_iff in F2 as [_ F2]. apply negb_false_iff in F2.
  exists m, (sr_value (strtoll b)). subst argv'. repeat split; trivial.
  rewrite to_int_small; [reflexivity|].
  apply in_range_iff in F2. destruct m; lia.
Qed.

(** Whatever the lines are, every [push] and [pop] instruction of the
    list under construction has a resolved segment and a number within
    the bounds of that segment, and no [pop] instruction targets
    [CONSTANT]. *)
Theorem list_push_pop_invariant (e : Z) (ls : list string) (s : Scan) :
  scan_lines impl (start e) ls = Some s ->
  Forall push_pop_ok (toks s).
Proof.
  intros H.
  apply (scan_lines_new_toks push_pop_ok ls
           (fun e l t => line_instr_push_pop_ok e l t) _ _ H).
  constructor.
Qed.

End ListInvariant.

Lemma list_push_pop_invariant_witness :
  Forall push_pop_ok
    [mkTokenList PUSH 2 [Some (A_mem CONSTANT); Some (A_num 7)];
     mkTokenList LABEL 1 [Some (A_name (strcpy 1 "x"))];
     mkTokenList POP 2 [Some (A_mem TEMP); Some (A_num 3)]].
Proof.
  apply (list_push_pop_invariant flags
           ltac:(discriminate) ltac:(discriminate) 0
           ["push constant 7"; "label x y"; "pop temp 3"]
           (mkScan [mkTokenList PUSH 2 [Some (A_mem CONSTANT); Some (A_num 7)];
                    mkTokenList LABEL 1 [Some (A_name (strcpy 1 "x"))];
                    mkTokenList POP 2 [Some (A_mem TEMP); Some (A_num 3)]]
                   false 0 [])).
  reflexivity.
Defined.

(** ** When the line reader returns *)

Lemma comments_closed_skip (a : ascii) (t : string) :
  (a =? slash)%char && starts_with slash t = false ->
  comments_closed (String a t) = comments_closed t.
Proof. intros H. cbn [comments_closed]. now rewrite H. Qed.

Lemma comments_closed_after_eq (t v : string) :
  after_newline t = Some v -> comments_closed t = comments_closed v.
Proof.
  revert v. induction t as [|a t IH]; intros v H; [discriminate|].
  cbn [after_newline] in H. cbn [comments_closed].
  destruct (a =? newline)%char eqn:A.
  - inversion H; subst. apply Ascii.eqb_eq in A. subst a. reflexivity.
  - rewrite H. rewrite (IH v H).
    now destruct ((a =? slash)%char && starts_with slash t).
Qed.

Lemma carries_on_end (fp : FILE) :
  comments_closed (pending fp) = true ->
  carries_on fp (mkFILE EmptyString true).
Proof.
  intros H. split; [congruence|]. intros _ _. reflexivity.
Qed.

Lemma carries_on_refl (fp : FILE) : carries_on fp fp.
Proof. now split. Qed.

Lemma carries_on_trans (a b c : FILE) :
  carries_on a b -> carries_on b c -> carries_on a c.
Proof. intros [H1 H2] [H3 H4]. split; auto. Qed.

Lemma skip_comment_result (k : nat) :
  forall fp fp',
    skip_comment k fp = Some fp' ->
    eof_ind fp = false /\ eof_ind fp' = false
    /\ after_newline (pending fp) = Some (pending fp').
Proof.
  induction k as [|k IH]; intros [s e] fp' H; [discriminate|].
  cbn [skip_comment] in H. unfold fgetc in H. cbn [eof_ind pending] in *.
  destruct e.
  - cbn [is_char EOF] in H. apply IH in H as [H _]. discriminate.
  - destruct s as [|a t].
    + cbn [is_char EOF] in H. apply IH in H as [H _]. discriminate.
    + cbn [is_char after_newline] in *.
      destruct (a =? newline)%char.
      * inversion H; subst. now repeat split.
      * apply IH in H as (_ & H2 & H3). now repeat split.
Qed.

Lemma read_chars_carries_on (k : nat) :
  forall fp r r' fp',
    read_chars k fp r = Some (r', fp') -> carries_on fp fp'.
Proof.
  induction k as [|k IH]; intros [s e] r r' fp' H; [discriminate|].
  cbn [read_chars] in H. unfold fgetc at 1 in H. cbn [eof_ind pending] in H.
  destruct e; [inversion H; subst; apply carries_on_refl|].
  destruct s as [|a t].
  - inversion H; subst. now apply carries_on_end.
  - destruct (a =? newline)%char eqn:A.
    + inversion H; subst. split; [|intros _; discriminate].
      cbn [pending]. rewrite comments_closed_skip; trivial.
      apply Ascii.eqb_eq in A. now subst a.
    + destruct (a =? slash)%char eqn:S.
      * unfold fgetc in H. cbn [eof_ind pending] in H.
        destruct t as [|b t'].
        -- cbn [is_char ungetc EOF] in H. apply IH in H as [_ H].
           split; [cbn; rewrite S; discriminate|].
           intros _. apply H. intros _. reflexivity.
        -- cbn [is_char] in H. destruct (b =? slash)%char eqn:B.
           ++ destruct (skip_comment k (mkFILE t' false)) as [fp3|] eqn:C;
                [|discriminate].
              inversion H; subst.
              apply skip_comment_result in C as (_ & E3 & V).
              cbn [pending] in *. split; [|intros _ F; congruence].
              cbn [pending].
              apply Ascii.eqb_eq in B. subst b.
              rewrite <- (comments_closed_after_eq t' _ V).
              cbn [comments_closed starts_with after_newline].
              rewrite S. change ("/" =? slash)%char with true.
              change ("/" =? newline)%char with false.
              rewrite V. cbn [andb].
              now destruct (starts_with slash t').
           ++ cbn [ungetc pending] in H. apply IH in H as [H1 H2].
              split; [|intros _; apply H2; discriminate].
              cbn [pending] in *. rewrite comments_closed_skip; trivial.
              cbn [starts_with]. now rewrite B, andb_false_r.
      * apply IH in H as [H1 H2].
        split; [|intros _; apply H2; discriminate].
        cbn [pending] in *.
        rewrite comments_closed_skip by (now rewrite S). exact H1.
Qed.

Lemma skip_leading_carries_on (k : nat) :
  forall fp c fp1,
    skip_leading k fp = Some (c, fp1) -> carries_on fp (ungetc c fp1).
Proof.
  induction k as [|k IH]; intros [s e] c fp1 H; [discriminate|].
  cbn [skip_leading] in H. unfold fgetc in H. cbn [eof_ind pending] in H.
  destruct e; [inversion H; subst; apply carries_on_refl|].
  destruct s as [|a t].
  - inversion H; subst. now apply carries_on_end.
  - destruct (isspace a) eqn:A.
    + apply IH in H as [H1 H2].
      split; [|intros _; apply H2; discriminate].
      cbn [pending] in *. rewrite comments_closed_skip; trivial.
      destruct (a =? slash)%char eqn:S; [|reflexivity].
      apply Ascii.eqb_eq in S. subst a. discriminate.
    + inversion H; subst. apply carries_on_refl.
Qed.

Lemma nextline_carries_on (k : nat) :
  forall fp r fp',
    nextline k fp = Some (r, fp') ->
    carries_on fp fp' /\ (r = None -> eof_ind fp' = true).
Proof.
  induction k as [|k IH]; intros fp r fp' H; [discriminate|].
  cbn [nextline] in H. unfold feof in H.
  destruct (eof_ind fp) eqn:E.
  - inversion H; subst. split; [apply carries_on_refl|trivial].
  - destruct (skip_leading k fp) as [[c fp1]|] eqn:L; [|discriminate].
    apply skip_leading_carries_on in L.
    destruct (read_chars k (ungetc c fp1) None) as [[[r0|] fp2]|] eqn:R;
      [| |discriminate]; apply read_chars_carries_on in R.
    + inversion H; subst. split; [|discriminate].
      eapply carries_on_trans; eauto.
    + apply IH in H as [H1 H2]. split; [|exact H2].
      eapply carries_on_trans; [|exact H1].
      eapply carries_on_trans; eauto.
Qed.

Lemma read_lines_open_comment (k : nat) :
  forall fp, at_end_when_eof fp ->
    comments_closed (pending fp) = false ->
    read_lines k fp = None.
Proof.
  induction k as [|k IH]; intros fp Hw Hc; [reflexivity|].
  cbn [read_lines].
  destruct (nextline k fp) as [[[line|] fp']|] eqn:N; [| |reflexivity].
  - apply nextline_carries_on in N as [[H1 H2] _].
    now rewrite (IH fp' (H2 Hw) (H1 Hc)).
  - apply nextline_carries_on in N as [[H1 H2] H3].
    pose proof (H2 Hw (H3 eq_refl)) as Hp. pose proof (H1 Hc) as Hq.
    rewrite Hp in Hq. discriminate.
Qed.

Lemma scan_while_reads (impl : Impl) (k : nat) :
  forall fp s s',
    scan_while impl k fp s = Some (Some s') ->
    exists ls, read_lines k fp = Some ls.
Proof.
  induction k as [|k IH]; intros fp s s' H; [discriminate|].
  cbn [scan_while read_lines] in *.
  destruct (nextline k fp) as [[[line|] fp']|]; [| |discriminate].
  - destruct (scan_line impl s line) as [s1|]; [|discriminate].
    apply IH in H as [ls ->]. now exists (line :: ls).
  - now exists [].
Qed.

(** The lines of a text can be read to the end exactly when every [//]
    of the text has a newline after it; on any other text the loop over
    [nextline] never ends, so [scan_stream] neither returns nor reaches
    its [exit(1)]. *)
Theorem reading_ends_iff_comments_closed (text : string) :
  ((exists fuel ls, read_lines fuel (fopen text) = Some ls)
   <-> comments_closed text = true)
  /\ (forall impl fuel e r err,
        scan_stream impl fuel e (fopen text) = Some (Return r err)
        \/ scan_stream impl fuel e (fopen text) = Some (Exit 1 err) ->
        comments_closed text = true).
Proof.
  assert (Hopen : comments_closed text = false ->
                  forall fuel, read_lines fuel (fopen text) = None).
  { intros Hc fuel. apply read_lines_open_comment; [discriminate|exact Hc]. }
  split; [split|].
  - intros (fuel & ls & H).
    destruct (comments_closed text) eqn:C; [reflexivity|].
    rewrite (Hopen eq_refl) in H. discriminate.
  - intros Hc. exists (String.length text + 3)%nat, (logical_lines text).
    now apply read_lines_text.
  - intros impl fuel e r err H.
    destruct (comments_closed text) eqn:C; [reflexivity|]. exfalso.
    unfold scan_stream in H.
    destruct (scan_while impl fuel (fopen text) (start e)) as [[s|]|] eqn:W.
    + apply scan_while_reads in W as [ls W].
      rewrite (Hopen eq_refl) in W. discriminate.
    + simpl in H. destruct H as [H|H]; discriminate.
    + destruct H as [H|H]; discriminate.
Qed.

(** ** The command word of a line *)

Lemma delimiter_is_space (a : ascii) :
  strchr tokdelim a = true -> isspace a = true.
Proof.
  unfold tokdelim. cbn [strchr].
  destruct (Ascii.eqb_spec " " a) as [<-|]; [reflexivity|].
  destruct (Ascii.eqb_spec "009" a) as [<-|]; [reflexivity|discriminate].
Qed.

Lemma scan_line_none_iff (impl : Impl) (s : Scan) (l : string) :
  scan_line impl s l = None <-> tokens (c_str l) = [].
Proof.
  rewrite scan_line_words. unfold scan_words.
  destruct (tokens (c_str l)) as [|w rest]; [tauto|].
  split; [|discriminate].
  destruct (CommandType_eqb (cmdtype w) NONE); [discriminate|].
  destruct (first_cells (cmd_fmt (cmdtype w)) w) as [[argn n] argv].
  destruct (for_words impl _ _ _ _ _ _ _ _ (allocated _ s)). discriminate.
Qed.

Lemma tokens_of_line (a : ascii) (r : string) :
  isspace a = false ->
  (tokens (c_str (String a r)) = [] <-> a = zero).
Proof.
  intros Ha. cbn [c_str].
  destruct (Ascii.eqb_spec a zero) as [->|Hz]; [now split|].
  split; [|contradiction]. rewrite tokens_unfold. unfold strtok.
  cbn [skip_delims].
  destruct (strchr tokdelim a) eqn:D;
    [apply delimiter_is_space in D; congruence|].
  destruct (take_token tokdelim (String a (c_str r))). discriminate.
Qed.

Lemma next_logical_line_head (text line : string) :
  fst (next_logical_line text) = Some line ->
  exists a l u, line = String a l /\ isspace a = false
                /\ skip_blank false text = String a u.
Proof.
  unfold next_logical_line.
  destruct (skip_blank false text) as [|a u] eqn:U; [discriminate|].
  destruct (skip_blank_head _ _ _ _ U) as [Ha Hcm].
  cbn [fst line_text]. rewrite (not_space_not_newline a Ha), Hcm.
  intros H; inversion H; subst. now exists a, (line_text u), u.
Qed.

(** The null pointer that the source marks with [FIXME] at the first
    [strtok]: for a line that [nextline] returns, [strtok] finds no
    command word exactly when the line starts with a NUL byte; every
    other line has one. *)
Theorem null_command_word_iff_nul (text line : string) :
  fst (next_logical_line text) = Some line ->
  forall impl s,
    scan_line impl s line = None <-> starts_with zero line = true.
Proof.
  intros H impl s.
  apply next_logical_line_head in H as (a & l & u & -> & Ha & _).
  rewrite scan_line_none_iff, (tokens_of_line a l Ha). cbn [starts_with].
  split; [intros ->; reflexivity|apply Ascii.eqb_eq].
Qed.

Lemma null_command_word_iff_nul_witness :
  fst (next_logical_line (String zero "add")) = Some (String zero "add")
  /\ scan_line flags (start 0) (String zero "add") = None.
Proof.
  split; [reflexivity|].
  apply (null_command_word_iff_nul (String zero "add") (String zero "add")
           eq_refl flags (start 0)).
  reflexivity.
Defined.

(** ** Streams on which scan_stream returns or exits *)

Lemma has_char_after_newline (c : ascii) (t v : string) :
  after_newline t = Some v -> has_char c t = false -> has_char c v = false.
Proof.
  revert v. induction t as [|a t IH]; intros v H Hc; [discriminate|].
  cbn [after_newline has_char] in *. apply orb_false_iff in Hc as [_ Hc].
  destruct (a =? newline)%char; [now inversion H; subst|now apply IH].
Qed.

Lemma has_char_skip_blank_upto (c : ascii) (n : nat) :
  forall s m, (String.length s <= n)%nat ->
    has_char c s = false -> has_char c (skip_blank m s) = false.
Proof.
  induction n as [|n IH]; intros s m Hl Hc;
    (destruct s as [|b u]; [reflexivity|]); simpl in Hl; [lia|].
  pose proof Hc as Hc'. cbn [has_char] in Hc'.
  apply orb_false_iff in Hc' as [_ Hu].
  cbn [skip_blank]. destruct m.
  - destruct (b =? newline)%char; apply IH; trivial; lia.
  - destruct (isspace b); [apply IH; trivial; lia|].
    destruct ((b =? slash)%char && starts_with slash u); [|exact Hc].
    destruct u as [|d u']; [reflexivity|].
    cbn [has_char] in Hu. apply orb_false_iff in Hu as [_ Hu'].
    apply IH; trivial. simpl in Hl. lia.
Qed.

Lemma has_char_after_line (c : ascii) (s : string) :
  has_char c s = false -> has_char c (pending (after_line s)) = false.
Proof.
  induction s as [|a t IH]; intros Hc; [reflexivity|].
  cbn [has_char] in Hc. apply orb_false_iff in Hc as [_ Ht].
  cbn [after_line].
  destruct (a =? newline)%char; [exact Ht|].
  destruct ((a =? slash)%char && starts_with slash t); [|now apply IH].
  destruct t as [|b t']; [reflexivity|].
  cbn [has_char] in Ht. apply orb_false_iff in Ht as [_ Ht'].
  destruct (after_newline t') as [v|] eqn:V; [|reflexivity].
  now apply (has_char_after_newline c t' v V).
Qed.

Lemma lines_upto_start_with_word (n : nat) :
  forall text, has_char zero text = false ->
               Forall starts_with_word (lines_upto n text).
Proof.
  induction n as [|n IH]; intros text Hz; [constructor|].
  cbn [lines_upto].
  destruct (next_logical_line text) as [[l|] fp] eqn:E; [|constructor].
  pose proof (has_char_skip_blank_upto zero (String.length text) text false
                (le_n _) Hz) as Hu.
  assert (El : fst (next_logical_line text) = Some l) by now rewrite E.
  apply next_logical_line_head in El as (a & r & u & -> & Ha & U).
  unfold next_logical_line in E. rewrite U in E, Hu.
  assert (Hfp : fp = after_line (String a u)) by now inversion E.
  constructor.
  - exists a, r. repeat split; trivial. intros ->. discriminate.
  - apply IH. subst fp. now apply has_char_after_line.
Qed.

Lemma scan_lines_total (impl : Impl) (ls : list string) :
  Forall starts_with_word ls ->
  forall s, exists s', scan_lines impl s ls = Some s'.
Proof.
  induction 1 as [|l ls (a & r & -> & Ha & Hz) _ IH]; intros s.
  - now exists s.
  - cbn [scan_lines].
    destruct (scan_line impl s (String a r)) as [s1|] eqn:E; [apply IH|].
    apply scan_line_none_iff, tokens_of_line in E; trivial. contradiction.
Qed.

(** On a text without NUL bytes in which every [//] has a newline after
    it, [scan_stream] comes to its end, for any fuel beyond the length of
    the text plus 3: every line has a command word, and the run either
    returns the list or calls [exit(1)]. *)
Theorem scan_stream_returns_or_exits (impl : Impl) (e : Z) (text : string) :
  comments_closed text = true ->
  has_char zero text = false ->
  exists s,
    scan_lines impl (start e) (logical_lines text) = Some s
    /\ forall k, (String.length text + 3 <= k)%nat ->
         scan_stream impl k e (fopen text)
         = Some (if failure s then Exit 1 (stderr s ++ [FailedToCompile])
                 else Return (toks s) (stderr s)).
Proof.
  intros Hc Hz.
  destruct (scan_lines_total impl (logical_lines text)
              (lines_upto_start_with_word _ text Hz) (start e)) as [s Hs].
  exists s. split; [exact Hs|].
  intros k Hk. unfold scan_stream.
  rewrite (scan_while_lines impl k (fopen text) (logical_lines text)), Hs;
    [reflexivity|].
  now apply read_lines_text.
Qed.

Lemma scan_stream_returns_or_exits_witness :
  exists s,
    scan_lines flags (start 0)
      (logical_lines ("push local 2 // x" ++ nl ++ "pop" ++ nl)%string) = Some s
    /\ forall k, (String.length ("push local 2 // x" ++ nl ++ "pop" ++ nl)%string
                  + 3 <= k)%nat ->
         scan_stream flags k 0
           (fopen ("push local 2 // x" ++ nl ++ "pop" ++ nl)%string)
         = Some (if failure s then Exit 1 (stderr s ++ [FailedToCompile])
                 else Return (toks s) (stderr s)).
Proof.
  exact (scan_stream_returns_or_exits flags 0
           ("push local 2 // x" ++ nl ++ "pop" ++ nl)%string eq_refl eq_refl).
Defined.

Lemma reading_ends_iff_comments_closed_witness :
  comments_closed ("add // sum" ++ nl)%string = true
  /\ exists fuel ls,
       read_lines fuel (fopen ("add // sum" ++ nl)%string) = Some ls.
Proof.
  split; [reflexivity|].
  apply (proj1 (reading_ends_iff_comments_closed ("add // sum" ++ nl)%string)).
  reflexivity.
Defined.

(** ** Streams on which scan_stream does not come to its end *)

Lemma chars_in_refl (s : string) : chars_in s s.
Proof. intros c H. exact H. Qed.

Lemma chars_in_trans (s t u : string) :
  chars_in s t -> chars_in t u -> chars_in s u.
Proof. intros H1 H2 c H. apply H2, H1, H. Qed.

Lemma chars_in_tail (a : ascii) (t : string) : chars_in t (String a t).
Proof. intros c H. cbn [has_char]. now rewrite H, orb_true_r. Qed.

Lemma chars_in_empty (t : string) : chars_in EmptyString t.
Proof. intros c H. discriminate. Qed.

(** What [fgetc] reads is the first character still to be read. *)
Lemma fgetc_inv (fp : FILE) (c : option ascii) (fp1 : FILE) :
  fgetc fp = (c, fp1) ->
  chars_in (pending fp1) (pending fp)
  /\ chars_in (pending (ungetc c fp1)) (pending fp)
  /\ match c with
     | Some a => pending fp = String a (pending fp1) /\ eof_ind fp = false
     | None => eof_ind fp1 = true
     end.
Proof.
  unfold fgetc. destruct (eof_ind fp) eqn:E.
  - intros H; inversion H; subst. cbn [ungetc]. repeat split; trivial;
      apply chars_in_refl.
  - destruct (pending fp) as [|a t] eqn:P; intros H; inversion H; subst;
      cbn [ungetc pending eof_ind]; repeat split;
      first [apply chars_in_empty | apply chars_in_tail | apply chars_in_refl].
Qed.

Lemma skip_comment_chars (k : nat) :
  forall fp fp', skip_comment k fp = Some fp' ->
                 chars_in (pending fp') (pending fp).
Proof.
  induction k as [|k IH]; intros fp fp' H; [discriminate|].
  cbn [skip_comment] in H.
  destruct (fgetc fp) as [c fp1] eqn:G. apply fgetc_inv in G as (G & _ & _).
  destruct (is_char newline c).
  - inversion H; subst. exact G.
  - eapply chars_in_trans; [apply IH, H|exact G].
Qed.

Lemma skip_leading_chars (k : nat) :
  forall fp c fp1,
    skip_leading k fp = Some (c, fp1) ->
    chars_in (pending (ungetc c fp1)) (pending fp)
    /\ match c with
       | Some a => isspace a = false
       | None => eof_ind fp1 = true
       end.
Proof.
  induction k as [|k IH]; intros fp c fp1 H; [discriminate|].
  cbn [skip_leading] in H.
  destruct (fgetc fp) as [c0 fp0] eqn:G.
  apply fgetc_inv in G as (G1 & G2 & G3).
  destruct c0 as [a|].
  - destruct (isspace a) eqn:S.
    + apply IH in H as [H1 H2]. split; [|exact H2].
      eapply chars_in_trans; eauto.
    + inversion H; subst. now split.
  - inversion H; subst. now split.
Qed.

Lemma append_empty_r (s : string) : (s ++ EmptyString)%string = s.
Proof. induction s as [|a t IH]; cbn; [reflexivity|now rewrite IH]. Qed.

(** The line under construction only grows at its end, and its first
    character is the first one read. *)
Lemma read_chars_chars (k : nat) :
  forall fp r r' fp',
    read_chars k fp r = Some (r', fp') ->
    chars_in (pending fp') (pending fp)
    /\ match r with
       | Some r0 => exists t, r' = Some (r0 ++ t)%string
       | None =>
           forall x, r' = Some x ->
             exists a t rest,
               x = String a t /\ pending fp = String a rest
               /\ eof_ind fp = false
       end.
Proof.
  induction k as [|k IH]; intros fp r r' fp' H; [discriminate|].
  cbn [read_chars] in H.
  destruct (fgetc fp) as [c fp1] eqn:G.
  apply fgetc_inv in G as (G1 & _ & G3).
  assert (Hsame : forall q, chars_in (pending q) (pending fp) ->
            chars_in (pending q) (pending fp)
            /\ match r with
               | Some r0 => exists t, r = Some (r0 ++ t)%string
               | None =>
                   forall x, r = Some x ->
                     exists a t rest,
                       x = String a t /\ pending fp = String a rest
                       /\ eof_ind fp = false
               end).
  { intros q Hq. split; [exact Hq|]. destruct r as [r0|]; [|discriminate].
    exists EmptyString. now rewrite append_empty_r. }
  assert (Hpush : forall a q q',
            pending fp = String a (pending fp1) -> eof_ind fp = false ->
            chars_in (pending q) (pending fp1) ->
            read_chars k q (push_char r a) = Some (r', q') ->
            chars_in (pending q') (pending fp)
            /\ match r with
               | Some r0 => exists t, r' = Some (r0 ++ t)%string
               | None =>
                   forall x, r' = Some x ->
                     exists a t rest,
                       x = String a t /\ pending fp = String a rest
                       /\ eof_ind fp = false
               end).
  { intros a q q' Hp He Hq Hr. apply IH in Hr as [Hc Hr]. split.
    - eapply chars_in_trans; [exact Hc|].
      eapply chars_in_trans; [exact Hq|exact G1].
    - destruct r as [r0|]; cbn [push_char] in Hr.
      + destruct Hr as [t ->]. exists (String a t).
        now rewrite append_assoc.
      + destruct Hr as [t ->]. intros x Hx. inversion Hx; subst.
        exists a, t, (pending fp1). now repeat split. }
  destruct c as [a|].
  - destruct G3 as [Hp He].
    destruct (a =? newline)%char.
    + inversion H; subst. now apply Hsame.
    + destruct (a =? slash)%char.
      * destruct (fgetc fp1) as [n fp2] eqn:G'.
        apply fgetc_inv in G' as (F1 & F2 & _).
        destruct (is_char slash n).
        -- destruct (skip_comment k fp2) as [fp3|] eqn:C; [|discriminate].
           apply skip_comment_chars in C. inversion H; subst.
           apply Hsame. eapply chars_in_trans; [exact C|].
           eapply chars_in_trans; [exact F1|exact G1].
        -- apply (Hpush a _ _ Hp He F2 H).
      * apply (Hpush a _ _ Hp He (chars_in_refl _) H).
  - inversion H; subst. now apply Hsame.
Qed.

(** A line that [nextline] returns starts with a character of the stream
    that is no white space, and what is left of the stream was in it. *)
Lemma nextline_word (k : nat) :
  forall fp line fp',
    nextline k fp = Some (Some line, fp') ->
    (exists a t, line = String a t /\ isspace a = false
                 /\ has_char a (pending fp) = true)
    /\ chars_in (pending fp') (pending fp).
Proof.
  induction k as [|k IH]; intros fp line fp' H; [discriminate|].
  cbn [nextline] in H. unfold feof in H.
  destruct (eof_ind fp); [discriminate|].
  destruct (skip_leading k fp) as [[c fp1]|] eqn:L; [|discriminate].
  apply skip_leading_chars in L as [L1 L2].
  destruct (read_chars k (ungetc c fp1) None) as [[[r0|] fp2]|] eqn:R;
    [| |discriminate]; apply read_chars_chars in R as [R1 R2].
  - inversion H; subst.
    destruct (R2 line eq_refl) as (a & t & rest & -> & Hp & He).
    split; [|eapply chars_in_trans; eauto].
    destruct c as [a'|]; cbn [ungetc pending eof_ind] in *.
    + inversion Hp; subst. exists a, t. repeat split; trivial.
      apply L1. cbn [has_char]. now rewrite Ascii.eqb_refl.
    + congruence.
  - apply IH in H as [(a & t & -> & Ha & Hin) Hc].
    assert (Hall : chars_in (pending fp2) (pending fp))
      by (eapply chars_in_trans; eauto).
    split; [|eapply chars_in_trans; eauto].
    exists a, t. repeat split; trivial. now apply Hall.
Qed.

(** On a stream without NUL bytes every line has a command word: the
    loop of [scan_stream] never hands a null pointer to [cmdtype]. *)
Lemma scan_while_defined (impl : Impl) (k : nat) :
  forall fp s,
    has_char zero (pending fp) = false ->
    scan_while impl k fp s <> Some None.
Proof.
  induction k as [|k IH]; intros fp s Hz; [discriminate|].
  cbn [scan_while].
  destruct (nextline k fp) as [[[line|] fp']|] eqn:N; try discriminate.
  apply nextline_word in N as [(a & t & -> & Ha & Hin) Hc].
  destruct (scan_line impl s (String a t)) as [s1|] eqn:E.
  - apply IH. destruct (has_char zero (pending fp')) eqn:Z; [|reflexivity].
    apply Hc in Z. congruence.
  - apply scan_line_none_iff, tokens_of_line in E; [|exact Ha].
    subst a. congruence.
Qed.

(** On a stream without NUL bytes in which some [//] has no newline
    after it, [scan_stream] does not come to its end, whatever the
    fuel. *)
Lemma scan_stream_open_comment (text : string) :
  comments_closed text = false ->
  has_char zero text = false ->
  forall impl fuel e, scan_stream impl fuel e (fopen text) = None.
Proof.
  intros Hc Hz impl fuel e. unfold scan_stream.
  destruct (scan_while impl fuel (fopen text) (start e)) as [[s|]|] eqn:W;
    [| |reflexivity]; exfalso.
  - apply scan_while_reads in W as [ls W].
    rewrite read_lines_open_comment in W; [discriminate|discriminate|exact Hc].
  - revert W. now apply scan_while_defined.
Qed.

(** C4, at a stream that ends inside a comment.  The stream holds a line
    with an unknown command word and a valid line, then a comment that no
    newline ends: the claim has [scan_stream] return the instruction of
    the valid line, as it does when the newline is there, but the loop
    [while(fgetc(fp) != '\n')] of [nextline] reads [EOF] for ever and
    [scan_stream] never returns. *)
Theorem C4_open_comment_never_returns (impl : Impl) (e : Z) :
  unknown_word "foo" = Some "foo"
  /\ line_instr impl e "add" = Some (mkTokenList ARITHMETIC 1 [Some (A_op ADD)])
  /\ scan_stream impl 40 e
       (fopen ("foo" ++ nl ++ "add" ++ nl ++ "// end" ++ nl)%string)
     = Some (Return [mkTokenList ARITHMETIC 1 [Some (A_op ADD)]]
                    [UnknownCommand "foo"])
  /\ forall fuel,
       scan_stream impl fuel e
         (fopen ("foo" ++ nl ++ "add" ++ nl ++ "// end")%string)
       = None.
Proof.
  repeat split.
  intros fuel. now apply scan_stream_open_comment.
Qed.

(** C5, at streams that [scan_stream] does not read to their end.  With
    the newline after the comment the line [pop constant 1] leads to
    [exit(1)]; without it the failure is recorded but the comment loop
    of [nextline] never ends, so [exit(1)] is not reached.  And on a
    stream with a line that starts with a NUL byte, where no failure is
    recorded, nothing is returned: [cmdtype] gets the null pointer of
    [strtok]. *)
Theorem C5_open_comment_never_exits (impl : Impl) (e : Z) :
  scan_line flags (start 0) "pop constant 1"
  = Some (mkScan [] true 0 [PopOnConstant])
  /\ scan_stream flags 40 0
       (fopen ("pop constant 1" ++ nl ++ "// end" ++ nl)%string)
     = Some (Exit 1 [PopOnConstant; FailedToCompile])
  /\ (forall fuel,
        scan_stream impl fuel e
          (fopen ("pop constant 1" ++ nl ++ "// end")%string)
        = None)
  /\ scan_stream impl 40 e (fopen (String zero ("add" ++ nl))%string)
     = Some Undefined.
Proof.
  split; [reflexivity|]. split; [reflexivity|]. split; [|reflexivity].
  intros fuel. now apply scan_stream_open_comment.
Qed.

(** ** Lines with too few or too many words *)

Section WordCount.

Variable impl : Impl.

Lemma scan_arg_no_missing cmdt line kind argn w argv s :
  filter is_missing_diag
    (stderr (snd (scan_arg impl cmdt line kind argn w argv s)))
  = filter is_missing_diag (stderr s).
Proof.
  destruct kind; unfold scan_arg; trivial.
  - unfold scan_memory.
    destruct (lookup memory w), (CommandType_eqb cmdt POP && _);
      cbn [snd negb stderr set_failure report];
      rewrite ?filter_app; cbn [filter is_missing_diag];
      rewrite ?app_nil_r; reflexivity.
  - unfold scan_num.
    destruct (sr_erange (strtoll w)), ((_ =? ERANGE) || _),
      (pop_or_push impl cmdt);
      try destruct (is_mem TEMP _); try destruct ((_ <? 0) || (_ >? _));
      cbn [snd stderr set_failure report set_errno];
      rewrite ?filter_app; cbn [filter is_missing_diag];
      rewrite ?app_nil_r; reflexivity.
Qed.

Lemma for_words_missing_count n cmdt fmt line :
  forall i argn ws argv s,
    filter is_missing_diag
      (stderr (snd (for_words impl n cmdt fmt line i argn ws argv s)))
    = filter is_missing_diag (stderr s)
      ++ repeat (MissingToken line) (n - List.length ws).
Proof.
  induction n as [|n IH]; intros i argn ws argv s;
    [cbn; now rewrite app_nil_r|].
  destruct ws as [|w ws].
  - cbn [for_words]. rewrite IH. cbn [stderr set_failure report List.length].
    rewrite filter_app. cbn [filter is_missing_diag].
    rewrite <- app_assoc, Nat.sub_0_r. reflexivity.
  - rewrite for_words_cons, IH, scan_arg_no_missing. reflexivity.
Qed.

Lemma for_words_short n cmdt fmt line :
  forall i argn ws argv s,
    (List.length ws < n)%nat ->
    failure (snd (for_words impl n cmdt fmt line i argn ws argv s)) = true.
Proof.
  induction n as [|n IH]; intros i argn ws argv s Hl; [lia|].
  destruct ws as [|w ws]; [apply for_words_missing|].
  rewrite for_words_cons. apply IH. simpl in Hl. lia.
Qed.

(** A line with a known command word and fewer words than the command
    has arguments gets one missing-token message for each word that is
    not there (the loop goes on after the first one), all of them with
    the line as [strtok] has cut it; [failure] is set and nothing is
    linked.  A line with all its words gets no such message. *)
Theorem missing_token_messages (s : Scan) (l w : string)
    (rest : list string) :
  tokens (c_str l) = w :: rest ->
  cmdtype w <> NONE ->
  let wanted := Z.to_nat (nargs (cmd_fmt (cmdtype w)) - 1) in
  exists s',
    scan_line impl s l = Some s'
    /\ filter is_missing_diag (new_diags s s')
       = repeat (MissingToken (line_after_strtok tokdelim (c_str l)))
                (wanted - List.length rest)
    /\ ((List.length rest < wanted)%nat ->
        failure s' = true /\ toks s' = toks s).
Proof.
  intros Ht Hc wanted. rewrite scan_line_words, Ht. unfold scan_words.
  destruct (CommandType_eqb (cmdtype w) NONE) eqn:E;
    [destruct (cmdtype w); try discriminate; contradiction|].
  destruct (first_cells (cmd_fmt (cmdtype w)) w) as [[argn n] argv].
  fold wanted. set (line := line_after_strtok tokdelim (c_str l)).
  destruct (allocated_fields (cmd_fmt (cmdtype w)) s) as (At & _ & Ae).
  set (s0 := allocated (cmd_fmt (cmdtype w)) s) in *.
  pose proof (for_words_stderr impl wanted (cmdtype w) (cmd_fmt (cmdtype w))
                line 1 argn rest argv s0) as He.
  pose proof (for_words_missing_count wanted (cmdtype w)
                (cmd_fmt (cmdtype w)) line 1 argn rest argv (clean s0)) as Hm.
  pose proof (for_words_short wanted (cmdtype w) (cmd_fmt (cmdtype w)) line
                1 argn rest argv s0) as Hf.
  pose proof (for_words_toks impl wanted (cmdtype w) (cmd_fmt (cmdtype w))
                line 1 argn rest argv s0) as Hk.
  destruct (for_words impl wanted (cmdtype w) (cmd_fmt (cmdtype w)) line 1
              argn rest argv s0) as [argv' s2].
  cbn [snd] in *. rewrite Ae in He. rewrite At in Hk.
  eexists. split; [reflexivity|]. split.
  - rewrite stderr_append_node_diags, (added_app s s2 _ He). exact Hm.
  - intros Hl. rewrite failure_append_node, toks_append_node, (Hf Hl).
    now split.
Qed.

Lemma for_words_firstn n cmdt fmt line :
  forall i argn ws argv s,
    for_words impl n cmdt fmt line i argn ws argv s
    = for_words impl n cmdt fmt line i argn (firstn n ws) argv s.
Proof.
  induction n as [|n IH]; intros i argn ws argv s; [reflexivity|].
  destruct ws as [|w ws]; [reflexivity|].
  cbn [firstn]. rewrite !for_words_cons. apply IH.
Qed.

Lemma at_most_two_arguments (c : CommandType) :
  (Z.to_nat (nargs (cmd_fmt c) - 1) <= 2)%nat.
Proof. destruct c; cbn; lia. Qed.

Lemma scan_words_firstn (s : Scan) (line : string) (ws : list string) :
  scan_words impl s line ws = scan_words impl s line (firstn 3 ws).
Proof.
  destruct ws as [|w rest]; [reflexivity|]. cbn [firstn scan_words].
  destruct (CommandType_eqb (cmdtype w) NONE); [reflexivity|].
  destruct (first_cells (cmd_fmt (cmdtype w)) w) as [[argn n] argv].
  rewrite for_words_firstn.
  rewrite (for_words_firstn _ _ _ _ _ _ (firstn 2 rest)).
  rewrite firstn_firstn.
  now rewrite (Nat.min_l _ _ (at_most_two_arguments (cmdtype w))).
Qed.

(** Only the command word and the two words after it are looked at: two
    lines that agree on these (and on the text up to the end of the
    command word) are scanned alike, so words beyond the arguments of a
    command are ignored without any message. *)
Theorem extra_words_ignored (s : Scan) (l1 l2 : string) :
  line_after_strtok tokdelim (c_str l1) = line_after_strtok tokdelim (c_str l2) ->
  firstn 3 (tokens (c_str l1)) = firstn 3 (tokens (c_str l2)) ->
  scan_line impl s l1 = scan_line impl s l2.
Proof.
  intros Hl Ht. rewrite !scan_line_words, Hl.
  rewrite scan_words_firstn, Ht, <- scan_words_firstn. reflexivity.
Qed.

End WordCount.

Lemma missing_token_messages_witness :
  exists s',
    scan_line flags (start 0) "push" = Some s'
    /\ filter is_missing_diag (new_diags (start 0) s')
       = [MissingToken "push"; MissingToken "push"]
    /\ failure s' = true /\ toks s' = [].
Proof.
  destruct (missing_token_messages flags (start 0) "push" "push" []
              eq_refl ltac:(discriminate)) as (s' & Hs & Hm & Hf).
  exists s'. split; [exact Hs|]. split; [exact Hm|].
  apply Hf. cbn. lia.
Defined.

Lemma extra_words_ignored_witness :
  scan_line flags (start 0) "push constant 1 and more"
  = scan_line flags (start 0) "push constant 1".
Proof.
  apply (extra_words_ignored flags (start 0)); reflexivity.
Defined.

(** ** The stale errno *)

Section StaleErrno.

Variable impl : Impl.

Lemma scan_arg_keeps_erange cmdt line kind argn w argv s :
  errno s = ERANGE ->
  errno (snd (scan_arg impl cmdt line kind argn w argv s)) = ERANGE.
Proof.
  intros He. destruct kind; unfold scan_arg; trivial.
  - unfold scan_memory.
    now destruct (lookup memory w), (CommandType_eqb cmdt POP && _).
  - unfold scan_num.
    destruct (sr_erange (strtoll w)), ((_ =? ERANGE) || _),
      (pop_or_push impl cmdt);
      try destruct (is_mem TEMP _); try destruct ((_ <? 0) || (_ >? _));
      cbn [snd errno set_failure report set_errno]; trivial.
Qed.

Lemma for_words_keeps_erange n cmdt fmt line :
  forall i argn ws argv s,
    errno s = ERANGE ->
    errno (snd (for_words impl n cmdt fmt line i argn ws argv s)) = ERANGE.
Proof.
  induction n as [|n IH]; intros i argn ws argv s He; [exact He|].
  destruct ws as [|w ws].
  - cbn [for_words]. now apply IH.
  - rewrite for_words_cons. apply IH. now apply scan_arg_keeps_erange.
Qed.

Lemma errno_append_node c n a x : errno (append_node c n a x) = errno x.
Proof. unfold append_node. now destruct (failure x). Qed.

Lemma scan_num_stale cmdt line argn w argv s :
  errno s = ERANGE ->
  In (FailedToReadNumber w line)
     (stderr (snd (scan_num impl cmdt line argn w argv s)))
  /\ failure (snd (scan_num impl cmdt line argn w argv s)) = true.
Proof.
  intros He. unfold scan_num.
  assert (E : errno (if sr_erange (strtoll w) then set_errno ERANGE s else s)
              = ERANGE) by (destruct (sr_erange (strtoll w)); trivial).
  set (s1 := if sr_erange (strtoll w) then set_errno ERANGE s else s) in *.
  rewrite E. change (ERANGE =? ERANGE) with true. cbn [orb].
  destruct (pop_or_push impl cmdt);
    try destruct (is_mem TEMP _); try destruct ((_ <? 0) || (_ >? _));
    cbn [snd stderr failure set_failure report orb];
    rewrite ?in_app_iff; cbn [In]; tauto.
Qed.

(** [errno] is tested after [strtoll] but never cleared: if it is
    [ERANGE] when a line is scanned (from an earlier overflow, or on
    entry), it is still [ERANGE] afterwards, and every line with a number
    slot that has its words gets the number-parse message and sets
    [failure], however well-formed its number is. *)
Theorem stale_errno_rejects_numbers (s : Scan) (l c a w : string)
    (rest : list string) :
  errno s = ERANGE ->
  tokens (c_str l) = c :: a :: w :: rest ->
  In (cmdtype c) [PUSH; POP; FUNCTION; CALL] ->
  exists s',
    scan_line impl s l = Some s'
    /\ In (FailedToReadNumber w (line_after_strtok tokdelim (c_str l)))
          (new_diags s s')
    /\ failure s' = true
    /\ toks s' = toks s
    /\ errno s' = ERANGE.
Proof.
  intros He Ht Hc.
  destruct (scan_line impl s l) as [s'|] eqn:E;
    [|apply scan_line_none_iff in E; rewrite Ht in E; discriminate].
  exists s'. split; [reflexivity|].
  rewrite scan_line_words, Ht in E. unfold scan_words in E.
  set (line := line_after_strtok tokdelim (c_str l)) in *.
  assert (Hn : CommandType_eqb (cmdtype c) NONE = false)
    by (destruct Hc as [<-|[<-|[<-|[<-|[]]]]]; reflexivity).
  assert (Hf : first_cells (cmd_fmt (cmdtype c)) c = (0, 2, [@None CmdArg; None]))
    by (destruct Hc as [<-|[<-|[<-|[<-|[]]]]]; reflexivity).
  assert (Ha : forall x, allocated (cmd_fmt (cmdtype c)) x = x)
    by (intros x; destruct Hc as [<-|[<-|[<-|[<-|[]]]]]; reflexivity).
  assert (Hk : Z.to_nat (nargs (cmd_fmt (cmdtype c)) - 1) = 2%nat)
    by (destruct Hc as [<-|[<-|[<-|[<-|[]]]]]; reflexivity).
  assert (H2 : fmt_arg (cmd_fmt (cmdtype c)) (1 + 1) = ARG_NUM)
    by (destruct Hc as [<-|[<-|[<-|[<-|[]]]]]; reflexivity).
  rewrite Hn, Hf, Ha, Hk in E. cbv beta iota in E.
  pose proof (for_words_stderr impl 2 (cmdtype c) (cmd_fmt (cmdtype c)) line
                1 0 (a :: w :: rest) [None; None] s) as Hs.
  pose proof (for_words_failure impl 2 (cmdtype c) (cmd_fmt (cmdtype c)) line
                1 0 (a :: w :: rest) [None; None] s) as Hfl.
  pose proof (for_words_toks impl 2 (cmdtype c) (cmd_fmt (cmdtype c)) line
                1 0 (a :: w :: rest) [None; None] s) as Hto.
  pose proof (for_words_keeps_erange 2 (cmdtype c) (cmd_fmt (cmdtype c)) line
                1 0 (a :: w :: rest) [None; None] s He) as He'.
  assert (Hd : In (FailedToReadNumber w line)
                  (stderr (snd (for_words impl 2 (cmdtype c)
                                  (cmd_fmt (cmdtype c)) line 1 0
                                  (a :: w :: rest) [None; None] (clean s))))
             /\ failure (snd (for_words impl 2 (cmdtype c)
                                (cmd_fmt (cmdtype c)) line 1 0
                                (a :: w :: rest) [None; None] (clean s)))
                = true).
  { rewrite !for_words_cons, H2. cbn [for_words snd].
    unfold scan_arg at 1 3. apply scan_num_stale.
    apply scan_arg_keeps_erange. exact He. }
  destruct Hd as [Hd1 Hd2].
  destruct (for_words impl 2 (cmdtype c) (cmd_fmt (cmdtype c)) line 1 0
              (a :: w :: rest) [None; None] s) as [argv' s2].
  cbn [snd] in Hs, Hfl, Hto, He'. inversion E; subst s'.
  rewrite stderr_append_node_diags, (added_app s s2 _ Hs),
    failure_append_node, toks_append_node, errno_append_node,
    Hfl, Hd2, orb_true_r.
  now repeat split.
Qed.

End StaleErrno.

Lemma stale_errno_rejects_numbers_witness :
  exists s',
    scan_line flags (start ERANGE) "push constant 5" = Some s'
    /\ In (FailedToReadNumber "5" "push") (new_diags (start ERANGE) s')
    /\ failure s' = true.
Proof.
  destruct (stale_errno_rejects_numbers flags (start ERANGE)
              "push constant 5" "push" "constant" "5" [] eq_refl eq_refl
              (or_introl eq_refl)) as (s' & Hs & Hd & Hf & _).
  exists s'. now repeat split.
Defined.

Lemma teardown_frees_nodes_and_arrays_witness :
  Teardown.free_token_list
    [Teardown.mkNode 3%nat 1%nat [2%nat]; Teardown.mkNode 5%nat 4%nat []]
    [1; 2; 3; 4; 5]%nat
  = Some [2%nat].
Proof.
  apply (teardown_frees_nodes_and_arrays
           [Teardown.mkNode 3%nat 1%nat [2%nat]; Teardown.mkNode 5%nat 4%nat []]
           []).
  - repeat constructor; cbn; intuition discriminate.
  - intros n Hn. destruct Hn as [<-|[<-|[]]]; discriminate.
Defined.

(** ** The list and the messages at the end of the loop *)

Section WholeStream.

Variable impl : Impl.




(** The messages printed for a line do not depend on what was recorded
    before it, only on [errno]: the scan goes on after a failure and
    reports the later lines as it would have without it. *)
Theorem messages_independent_of_failure (s1 s2 s1' : Scan) (l : string) :
  errno s1 = errno s2 ->
  scan_line impl s1 l = Some s1' ->
  exists s2', scan_line impl s2 l = Some s2'
              /\ new_diags s2 s2' = new_diags s1 s1'
              /\ errno s2' = errno s1'.
Proof.
  intros He H. rewrite scan_line_join, clean_start in H.
  rewrite scan_line_join, clean_start, <- He.
  destruct (scan_line impl (start (errno s1)) l) as [d|]; [|discriminate].
  inversion H; subst. eexists. split; [reflexivity|].
  split; [|reflexivity].
  rewrite (added_app s2 (join s2 d) (stderr d) eq_refl).
  now rewrite (added_app s1 (join s1 d) (stderr d) eq_refl).
Qed.

End WholeStream.


Lemma messages_independent_of_failure_witness :
  exists s2',
    scan_line flags (mkScan [] true 0 [PopOnConstant]) "pop temp 9" = Some s2'
    /\ new_diags (mkScan [] true 0 [PopOnConstant]) s2'
       = new_diags (start 0) (mkScan [] true 0 [TempOutOfRange 9]).
Proof.
  destruct (messages_independent_of_failure flags (start 0)
              (mkScan [] true 0 [PopOnConstant])
              (mkScan [] true 0 [TempOutOfRange 9]) "pop temp 9"
              eq_refl eq_refl) as (s2' & H1 & H2 & _).
  now exists s2'.
Defined.

(** ** The blocks of the names *)

Section Names.

Variable impl : Impl.

Lemma set_nth_overflowed (v : CmdArg) (argv : list Cell) :
  overflowed (Some v) -> Forall overflowed argv ->
  forall k, Forall overflowed (set_nth argv k v).
Proof.
  intros Hv. induction 1 as [|c t Hc Ht IH]; intros k; [constructor|].
  destruct k; cbn [set_nth]; constructor; auto.
Qed.

Lemma store_overflowed (v : CmdArg) (argv : list Cell) (k : Z) :
  overflowed (Some v) -> Forall overflowed argv ->
  Forall overflowed (store argv k v).
Proof.
  intros Hv Ha. unfold store. destruct (k <? 0); [exact Ha|].
  now apply set_nth_overflowed.
Qed.

Lemma take_token_no_nul (s : string) :
  has_char zero s = false ->
  has_char zero (fst (take_token tokdelim s)) = false
  /\ has_char zero (snd (take_token tokdelim s)) = false.
Proof.
  induction s as [|c t IH]; intros H; [now split|].
  cbn [has_char] in H. apply orb_false_iff in H as [Hc Ht].
  cbn [take_token]. destruct (strchr tokdelim c); [now split|].
  destruct (take_token tokdelim t) as [tok r]. cbn [fst snd] in *.
  destruct (IH Ht) as [H1 H2]. split; [|exact H2].
  cbn [has_char]. now rewrite Hc, H1.
Qed.

Lemma skip_delims_no_nul (s : string) :
  has_char zero s = false -> has_char zero (skip_delims tokdelim s) = false.
Proof.
  induction s as [|c t IH]; intros H; [reflexivity|].
  cbn [skip_delims]. destruct (strchr tokdelim c); [|exact H].
  cbn [has_char] in H. apply orb_false_iff in H as [_ Ht]. now apply IH.
Qed.

Lemma tokens_upto_no_nul (n : nat) :
  forall s, has_char zero s = false ->
            Forall (fun w => has_char zero w = false) (tokens_upto n s).
Proof.
  induction n as [|n IH]; intros s H; [constructor|].
  cbn [tokens_upto]. unfold strtok.
  pose proof (skip_delims_no_nul s H) as Hs.
  destruct (skip_delims tokdelim s) as [|c t] eqn:E; [constructor|].
  destruct (take_token_no_nul _ Hs) as [H1 H2].
  destruct (take_token tokdelim (String c t)) as [tok r]. cbn [fst snd] in *.
  constructor; [exact H1|now apply IH].
Qed.

Lemma c_str_no_nul (buf : string) : has_char zero (c_str buf) = false.
Proof.
  induction buf as [|c t IH]; [reflexivity|]. cbn [c_str].
  destruct (Ascii.eqb_spec c zero) as [->|Hc]; [reflexivity|].
  cbn [has_char]. rewrite IH, orb_false_r. now apply Ascii.eqb_neq.
Qed.

Lemma scan_arg_overflowed cmdt line kind argn w argv s :
  has_char zero w = false ->
  Forall overflowed argv ->
  Forall overflowed (fst (scan_arg impl cmdt line kind argn w argv s)).
Proof.
  intros Hw Ha. destruct kind; unfold scan_arg; cbn [fst]; trivial.
  - unfold scan_memory. destruct (lookup memory w); cbn [fst]; trivial.
    now apply store_overflowed.
  - rewrite fst_scan_num. now apply store_overflowed.
  - apply store_overflowed; [|exact Ha].
    rewrite strcpy_strlen. cbn. now repeat split.
Qed.

Lemma for_words_overflowed n cmdt fmt line :
  forall i argn ws argv s,
    Forall (fun w => has_char zero w = false) ws ->
    Forall overflowed argv ->
    Forall overflowed (fst (for_words impl n cmdt fmt line i argn ws argv s)).
Proof.
  induction n as [|n IH]; intros i argn ws argv s Hw Ha; [exact Ha|].
  destruct ws as [|w ws]; [cbn [for_words]; now apply IH|].
  rewrite for_words_cons. inversion Hw; subst.
  apply IH; [assumption|]. now apply scan_arg_overflowed.
Qed.

Lemma first_cells_overflowed (fmt : CommandFormat) (w : string) :
  Forall overflowed (snd (first_cells fmt w)).
Proof.
  assert (Hr : forall n, Forall overflowed (repeat (@None CmdArg) n))
    by (induction n; constructor; trivial; exact I).
  unfold first_cells, first_slot, malloc_argv.
  destruct (CmdArgType_eqb (fmt_arg fmt 0) ARG_NONE);
    destruct (_ >? PTRDIFF_MAX); cbn [fst snd]; try constructor; trivial.
  - destruct (fmt_arg fmt 0); try constructor.
    destruct (lookup arithmetic w); constructor.
  - destruct (fmt_arg fmt 0); trivial.
    destruct (lookup arithmetic w); trivial.
    apply store_overflowed; [exact I|trivial].
Qed.

Lemma line_instr_overflowed (e : Z) (l : string) (t : TokenList) :
  line_instr impl e l = Some t -> Forall overflowed (t_argv t).
Proof.
  intros H. apply line_instr_scan in H as [(e' & H & _) _].
  rewrite scan_line_words in H. unfold scan_words in H.
  pose proof (tokens_upto_no_nul (S (String.length (c_str l))) (c_str l)
                (c_str_no_nul l)) as Hw.
  fold (tokens (c_str l)) in Hw.
  destruct (tokens (c_str l)) as [|w rest]; [discriminate|].
  inversion Hw; subst.
  destruct (CommandType_eqb (cmdtype w) NONE); [now inversion H|].
  pose proof (first_cells_overflowed (cmd_fmt (cmdtype w)) w) as Hc.
  destruct (first_cells (cmd_fmt (cmdtype w)) w) as [[argn n] argv].
  cbn [snd] in Hc.
  pose proof (for_words_overflowed
                (Z.to_nat (nargs (cmd_fmt (cmdtype w)) - 1)) (cmdtype w)
                (cmd_fmt (cmdtype w)) (line_after_strtok tokdelim (c_str l))
                1 argn rest argv (allocated (cmd_fmt (cmdtype w)) (start e))
                H3 Hc) as Ho.
  pose proof (for_words_toks impl (Z.to_nat (nargs (cmd_fmt (cmdtype w)) - 1))
                (cmdtype w) (cmd_fmt (cmdtype w))
                (line_after_strtok tokdelim (c_str l)) 1 argn rest argv
                (allocated (cmd_fmt (cmdtype w)) (start e))) as Ht.
  rewrite (proj1 (allocated_fields _ _)) in Ht.
  destruct (for_words impl _ _ _ _ _ _ _ _ (allocated _ (start e)))
    as [argv' s'].
  cbn [fst snd] in *. inversion H as [Hn]. clear H.
  apply append_node_linked in Hn as [_ ->]; [exact Ho|exact Ht].
Qed.

(** Every name of the list was copied into a block that is one byte too
    small ([malloc(strlen(nword))], then [strcpy]): whatever the lines
    are, each name slot of each instruction points to a block that the
    characters of the name fill, and the terminating NUL was written
    past the end of the block. *)
Theorem names_overflow_their_blocks (e : Z) (ls : list string) (s : Scan) :
  scan_lines impl (start e) ls = Some s ->
  Forall (fun t => Forall overflowed (t_argv t)) (toks s).
Proof.
  intros H.
  apply (scan_lines_new_toks impl (fun t => Forall overflowed (t_argv t)) ls
           (fun e l t => line_instr_overflowed e l t) _ _ H).
  constructor.
Qed.

End Names.

Lemma names_overflow_their_blocks_witness :
  Forall (fun t => Forall overflowed (t_argv t))
    [mkTokenList LABEL 1 [Some (A_name (mkBlock 4 "loop" (String zero "")))];
     mkTokenList CALL 2 [Some (A_name (mkBlock 1 "f" (String zero "")));
                         Some (A_num 2)]].
Proof.
  apply (names_overflow_their_blocks flags 0 ["label loop"; "call f 2"]
           (mkScan
              [mkTokenList LABEL 1
                 [Some (A_name (mkBlock 4 "loop" (String zero "")))];
               mkTokenList CALL 2
                 [Some (A_name (mkBlock 1 "f" (String zero "")));
                  Some (A_num 2)]]
              false 0 [])).
  reflexivity.
Defined.
